(** * InterWild auxiliary components: rotation conversions, pose losses, MANO table

    A shallow embedding of [common/nets/loss.py], of the joint tables of
    [common/utils/mano.py], of the keypoint drawing of [common/utils/vis.py]
    (as the OpenCV calls it makes) and of two pieces of [demo/demo.py]: the
    name under which results are saved and the drawing of a hand's skeleton.

    Tensors.  A tensor is read through its entries.  The leading (batch)
    dimensions are an index: a tensor of shape [(..., 3)] is a family
    [I -> vec3 T], one of shape [(..., 3, 3)] a family [I -> mat3 T], where
    [I] stands for the flattened leading shape ([reshape(-1, 3)] and the
    final reshape back to the leading shape only rename that index).  Every torch
    operation used by the source acts entry by entry, broadcasting is the
    dropping of an index, and slicing is a shift of an index.  Operands are
    taken to have the shapes the signatures document; shape errors raised by
    torch are outside this development.

    Scalars.  The element type is abstract ([Scalar T]) and has three
    instances: [R], exact real arithmetic; [fval], the reals extended with a
    NaN that every operation propagates; and [xfloat], the reals with the
    overflow of float32 to the two infinities and with NaN.  Rounding is
    modelled by none of them. *)

From Stdlib Require Import Reals Lra Psatz ZArith List Bool String Ascii Lia.
Import ListNotations.

Set Implicit Arguments.

(** ** Scalars *)

Class Scalar (T : Type) : Type := {
  lit   : R -> T;                (* a Python number used as a tensor entry *)
  add   : T -> T -> T;
  sub   : T -> T -> T;
  mul   : T -> T -> T;
  div   : T -> T -> T;
  neg   : T -> T;
  absv  : T -> T;                (* torch.abs *)
  sqrtv : T -> T;                (* torch.sqrt, inside torch.norm *)
  sinv  : T -> T;                (* torch.sin *)
  cosv  : T -> T;                (* torch.cos *)
  acosv : T -> T;                (* torch.acos *)
  clamp : T -> T -> T -> T;      (* torch.clamp(x, lo, hi) *)
  ltb   : T -> T -> bool         (* the entry of [x < y] *)
}.

Declare Scope tensor_scope.
Delimit Scope tensor_scope with t.
Infix "+" := add : tensor_scope.
Infix "-" := sub : tensor_scope.
Infix "*" := mul : tensor_scope.
Infix "/" := div : tensor_scope.
Notation "- x" := (neg x) : tensor_scope.
Notation "x <? y" := (ltb x y) : tensor_scope.

(** Exact reals. *)

Definition Rltb (x y : R) : bool := if Rlt_dec x y then true else false.

#[export] Instance Scalar_R : Scalar R := {|
  lit := fun r => r;
  add := Rplus; sub := Rminus; mul := Rmult; div := Rdiv; neg := Ropp;
  absv := Rabs; sqrtv := sqrt; sinv := sin; cosv := cos; acosv := acos;
  clamp := fun x lo hi => Rmin (Rmax x lo) hi;
  ltb := Rltb
|}.

(** Reals with NaN.  An operation applied outside its domain (a division by
    zero, the root of a negative number, [acos] outside [[-1, 1]]) yields
    [NaN]; every operation maps [NaN] to [NaN]; a comparison with [NaN] is
    false.  Infinities and rounding are not modelled. *)

Inductive fval : Type :=
| Fin (r : R)
| NaN.

Definition lift1 (f : R -> R) (x : fval) : fval :=
  match x with Fin a => Fin (f a) | NaN => NaN end.

Definition lift2 (f : R -> R -> R) (x y : fval) : fval :=
  match x, y with Fin a, Fin b => Fin (f a b) | _, _ => NaN end.

Definition fdiv (x y : fval) : fval :=
  match x, y with
  | Fin a, Fin b => if Req_dec_T b 0 then NaN else Fin (a / b)
  | _, _ => NaN
  end.

Definition fsqrt (x : fval) : fval :=
  match x with
  | Fin a => if Rlt_dec a 0 then NaN else Fin (sqrt a)
  | NaN => NaN
  end.

Definition facos (x : fval) : fval :=
  match x with
  | Fin a => if Rle_dec (-1) a then if Rle_dec a 1 then Fin (acos a) else NaN else NaN
  | NaN => NaN
  end.

Definition fclamp (x lo hi : fval) : fval :=
  match x, lo, hi with
  | Fin a, Fin l, Fin h => Fin (Rmin (Rmax a l) h)
  | _, _, _ => NaN
  end.

Definition fltb (x y : fval) : bool :=
  match x, y with Fin a, Fin b => Rltb a b | _, _ => false end.

#[export] Instance Scalar_fval : Scalar fval := {|
  lit := Fin;
  add := lift2 Rplus; sub := lift2 Rminus; mul := lift2 Rmult; div := fdiv;
  neg := lift1 Ropp;
  absv := lift1 Rabs; sqrtv := fsqrt; sinv := lift1 sin; cosv := lift1 cos;
  acosv := facos;
  clamp := fclamp;
  ltb := fltb
|}.

(** Reals with overflow.  A result larger in magnitude than the largest
    float32 becomes an infinity of its sign, and the infinities and NaN
    follow IEEE 754: [inf - inf], [0 * inf], [inf / inf], and [sin], [cos],
    [acos] of an infinity are NaN, a number divided by an infinity is 0.
    Rounding, underflow and the sign of zero are not modelled: a zero
    divisor counts as +0. *)

Definition f32_max : R := 340282346638528859811704183484516925440.

Inductive xfloat : Type :=
| XFin (r : R)
| XInf (negative : bool)
| XNaN.

Definition ovf (r : R) : xfloat :=
  if Rlt_dec f32_max r then XInf false
  else if Rlt_dec r (- f32_max) then XInf true
  else XFin r.

Definition xneg (x : xfloat) : xfloat :=
  match x with
  | XFin a => XFin (- a)
  | XInf s => XInf (negb s)
  | XNaN => XNaN
  end.

Definition xadd (x y : xfloat) : xfloat :=
  match x, y with
  | XFin a, XFin b => ovf (a + b)
  | XFin _, XInf s => XInf s
  | XInf s, XFin _ => XInf s
  | XInf s, XInf s' => if Bool.eqb s s' then XInf s else XNaN
  | _, _ => XNaN
  end.

Definition xsub (x y : xfloat) : xfloat :=
  match x, y with
  | XFin a, XFin b => ovf (a - b)
  | _, _ => xadd x (xneg y)
  end.

Definition xmul (x y : xfloat) : xfloat :=
  match x, y with
  | XFin a, XFin b => ovf (a * b)
  | XFin a, XInf s => if Req_dec_T a 0 then XNaN else XInf (xorb s (Rltb a 0))
  | XInf s, XFin b => if Req_dec_T b 0 then XNaN else XInf (xorb s (Rltb b 0))
  | XInf s, XInf s' => XInf (xorb s s')
  | _, _ => XNaN
  end.

Definition xdiv (x y : xfloat) : xfloat :=
  match x, y with
  | XFin a, XFin b =>
      if Req_dec_T b 0
      then if Req_dec_T a 0 then XNaN else XInf (Rltb a 0)
      else ovf (a / b)
  | XFin _, XInf _ => XFin 0
  | XInf s, XFin b => XInf (xorb s (Rltb b 0))
  | _, _ => XNaN
  end.

Definition xabs (x : xfloat) : xfloat :=
  match x with
  | XFin a => XFin (Rabs a)
  | XInf _ => XInf false
  | XNaN => XNaN
  end.

Definition xsqrt (x : xfloat) : xfloat :=
  match x with
  | XFin a => if Rlt_dec a 0 then XNaN else XFin (sqrt a)
  | XInf false => XInf false
  | _ => XNaN
  end.

Definition xtrig (f : R -> R) (x : xfloat) : xfloat :=
  match x with
  | XFin a => XFin (f a)
  | _ => XNaN
  end.

Definition xacos (x : xfloat) : xfloat :=
  match x with
  | XFin a => if Rle_dec (-1) a then if Rle_dec a 1 then XFin (acos a) else XNaN else XNaN
  | _ => XNaN
  end.

Definition xclamp (x lo hi : xfloat) : xfloat :=
  match x, lo, hi with
  | XFin a, XFin l, XFin h => XFin (Rmin (Rmax a l) h)
  | XInf false, XFin _, XFin h => XFin h
  | XInf true, XFin l, XFin h => XFin (Rmin l h)
  | _, _, _ => XNaN
  end.

Definition xltb (x y : xfloat) : bool :=
  match x, y with
  | XFin a, XFin b => Rltb a b
  | XFin _, XInf s => negb s
  | XInf s, XFin _ => s
  | XInf s, XInf s' => andb s (negb s')
  | _, _ => false
  end.

#[export] Instance Scalar_xfloat : Scalar xfloat := {|
  lit := ovf;
  add := xadd; sub := xsub; mul := xmul; div := xdiv; neg := xneg;
  absv := xabs; sqrtv := xsqrt; sinv := xtrig sin; cosv := xtrig cos;
  acosv := xacos;
  clamp := xclamp;
  ltb := xltb
|}.

(** ** Trailing dimensions: 3-vectors and 3x3 blocks *)

Record vec3 (T : Type) : Type := V3 { v0 : T; v1 : T; v2 : T }.

Record mat3 (T : Type) : Type := M3 {
  m00 : T; m01 : T; m02 : T;
  m10 : T; m11 : T; m12 : T;
  m20 : T; m21 : T; m22 : T
}.

Definition vmap {A B : Type} (f : A -> B) (v : vec3 A) : vec3 B :=
  V3 (f (v0 v)) (f (v1 v)) (f (v2 v)).

Definition mmap {A B : Type} (f : A -> B) (m : mat3 A) : mat3 B :=
  M3 (f (m00 m)) (f (m01 m)) (f (m02 m))
     (f (m10 m)) (f (m11 m)) (f (m12 m))
     (f (m20 m)) (f (m21 m)) (f (m22 m)).

Section BlockOps.
Context {T : Type} `{Scalar T}.
Local Open Scope tensor_scope.

Definition mzip (f : T -> T -> T) (a b : mat3 T) : mat3 T :=
  M3 (f (m00 a) (m00 b)) (f (m01 a) (m01 b)) (f (m02 a) (m02 b))
     (f (m10 a) (m10 b)) (f (m11 a) (m11 b)) (f (m12 a) (m12 b))
     (f (m20 a) (m20 b)) (f (m21 a) (m21 b)) (f (m22 a) (m22 b)).

(** [torch.norm(x, dim=1)] on rows of length 3: the 2-norm. *)
Definition norm3 (v : vec3 T) : T :=
  sqrtv (v0 v * v0 v + v1 v * v1 v + v2 v * v2 v).

(** A (N,3) tensor divided or multiplied by a (N,1) one: the scalar of the
    row is broadcast over its three entries. *)
Definition vdiv (v : vec3 T) (s : T) : vec3 T := vmap (fun x => x / s) v.
Definition vscale (s : T) (v : vec3 T) : vec3 T := vmap (fun x => s * x) v.

(** A (N,1,1) tensor times a (N,3,3) one. *)
Definition mscale (s : T) (m : mat3 T) : mat3 T := mmap (fun x => s * x) m.

Definition madd : mat3 T -> mat3 T -> mat3 T := mzip add.
Definition msub : mat3 T -> mat3 T -> mat3 T := mzip sub.
Definition mabs : mat3 T -> mat3 T := mmap absv.

(** [torch.eye(3)] and [torch.zeros]. *)
Definition eye3 : mat3 T :=
  M3 (lit 1) (lit 0) (lit 0)
     (lit 0) (lit 1) (lit 0)
     (lit 0) (lit 0) (lit 1).

Definition zeros33 : mat3 T := mmap (fun _ : T => lit 0) eye3.
Definition zeros3 : vec3 T := V3 (lit 0) (lit 0) (lit 0).

(** One block of [torch.bmm(a, b)]: the 3x3 matrix product. *)
Definition bmm (a b : mat3 T) : mat3 T :=
  M3 (m00 a * m00 b + m01 a * m10 b + m02 a * m20 b)
     (m00 a * m01 b + m01 a * m11 b + m02 a * m21 b)
     (m00 a * m02 b + m01 a * m12 b + m02 a * m22 b)
     (m10 a * m00 b + m11 a * m10 b + m12 a * m20 b)
     (m10 a * m01 b + m11 a * m11 b + m12 a * m21 b)
     (m10 a * m02 b + m11 a * m12 b + m12 a * m22 b)
     (m20 a * m00 b + m21 a * m10 b + m22 a * m20 b)
     (m20 a * m01 b + m21 a * m11 b + m22 a * m21 b)
     (m20 a * m02 b + m21 a * m12 b + m22 a * m22 b).
End BlockOps.

(** ** [axis_angle_to_matrix] (loss.py, lines 12-48) *)

Module AxisAngleToMatrix.
Section Steps.
Context {T : Type} `{Scalar T} {I : Type}.
Variable axis_angle : I -> vec3 T.
Local Open Scope tensor_scope.

(* angle = torch.norm(axis_angle, dim=1, keepdim=True) *)
Definition angle (i : I) : T := norm3 (axis_angle i).

(* axis = axis_angle / (angle + 1e-8) *)
Definition axis (i : I) : vec3 T := vdiv (axis_angle i) (angle i + lit 1e-8).

Definition cos_angle (i : I) : T := cosv (angle i).
Definition sin_angle (i : I) : T := sinv (angle i).

(* K = torch.zeros(N, 3, 3), then the six off-diagonal assignments *)
Definition K (i : I) : mat3 T :=
  M3 (lit 0)          (- v2 (axis i)) (v1 (axis i))
     (v2 (axis i))    (lit 0)         (- v0 (axis i))
     (- v1 (axis i))  (v0 (axis i))   (lit 0).

(* I = torch.eye(3).unsqueeze(0).expand(N, -1, -1) *)
Definition Id (_ : I) : mat3 T := eye3.

(* R = I + sin_angle.unsqueeze(2) * K + (1 - cos_angle).unsqueeze(2) * torch.bmm(K, K) *)
Definition R (i : I) : mat3 T :=
  madd (madd (Id i) (mscale (sin_angle i) (K i)))
       (mscale (lit 1 - cos_angle i) (bmm (K i) (K i))).

(* small_angle_mask = (angle.squeeze(1) < 1e-3).unsqueeze(1).unsqueeze(2) *)
Definition small_angle_mask (i : I) : bool := angle i <? lit 1e-3.

(* R = torch.where(small_angle_mask, I, R) *)
Definition result (i : I) : mat3 T :=
  if small_angle_mask i then Id i else R i.
End Steps.
End AxisAngleToMatrix.

Definition axis_angle_to_matrix {T : Type} `{Scalar T} {I : Type}
  (axis_angle : I -> vec3 T) : I -> mat3 T :=
AxisAngleToMatrix.result axis_angle.

(** ** [matrix_to_axis_angle] (loss.py, lines 50-84) *)

Module MatrixToAxisAngle.
Section Steps.
Context {T : Type} `{Scalar T} {I : Type}.
Variable matrix : I -> mat3 T.
Local Open Scope tensor_scope.

(* trace = matrix[:, 0, 0] + matrix[:, 1, 1] + matrix[:, 2, 2] *)
Definition trace (i : I) : T := m00 (matrix i) + m11 (matrix i) + m22 (matrix i).

(* the argument handed to torch.acos *)
Definition acos_arg (i : I) : T :=
  clamp ((trace i - lit 1) / lit 2) (lit (-1)) (lit 1).

(* angle = torch.acos(torch.clamp((trace - 1) / 2, -1, 1)) *)
Definition angle (i : I) : T := acosv (acos_arg i).

(* axis = torch.stack([...], dim=1) *)
Definition axis (i : I) : vec3 T :=
  V3 (m21 (matrix i) - m12 (matrix i))
     (m02 (matrix i) - m20 (matrix i))
     (m10 (matrix i) - m01 (matrix i)).

(* axis_norm = torch.norm(axis, dim=1, keepdim=True) *)
Definition axis_norm (i : I) : T := norm3 (axis i).

(* axis = axis / (axis_norm + 1e-8) *)
Definition axis_unit (i : I) : vec3 T := vdiv (axis i) (axis_norm i + lit 1e-8).

(* axis_angle = angle.unsqueeze(1) * axis *)
Definition axis_angle (i : I) : vec3 T := vscale (angle i) (axis_unit i).

(* small_angle_mask = (angle < 1e-3).unsqueeze(1) *)
Definition small_angle_mask (i : I) : bool := angle i <? lit 1e-3.

(* axis_angle = torch.where(small_angle_mask, torch.zeros_like(axis_angle), axis_angle) *)
Definition result (i : I) : vec3 T :=
  if small_angle_mask i then zeros3 else axis_angle i.
End Steps.
End MatrixToAxisAngle.

Definition matrix_to_axis_angle {T : Type} `{Scalar T} {I : Type}
  (matrix : I -> mat3 T) : I -> vec3 T :=
MatrixToAxisAngle.result matrix.

(** ** [CoordLoss] (loss.py, lines 86-94) *)

Module CoordLoss.
Section Forward.
Context {T : Type} `{Scalar T}.
(* coord_out, coord_gt, valid : (B, J, 3), entry [b j c]; is_3D : (B,) *)
Variables coord_out coord_gt valid : nat -> nat -> nat -> T.
Variable is_3D : nat -> Z.
Local Open Scope tensor_scope.

(* loss = torch.abs(coord_out - coord_gt) * valid *)
Definition loss (b j c : nat) : T :=
  absv (coord_out b j c - coord_gt b j c) * valid b j c.

(* is_3D[:,None,None].float() *)
Definition is_3D_float (b : nat) : T := lit (IZR (is_3D b)).

(* loss_z = loss[:,:,2:] * is_3D[:,None,None].float() *)
Definition loss_z (b j c : nat) : T :=
  loss b j (2 + c)%nat * is_3D_float b.

(* loss = torch.cat((loss[:,:,:2], loss_z), 2) *)
Definition forward (b j c : nat) : T :=
  if (c <? 2)%nat then loss b j c else loss_z b j (c - 2)%nat.
End Forward.
End CoordLoss.

(** ** [PoseLoss] (loss.py, lines 96-115) *)

Module PoseLoss.
Section Forward.
Context {T : Type} `{Scalar T}.
(* pose_out, pose_gt : (B, J*3), entry [b k]; pose_valid : (B, J) *)
Variables pose_out pose_gt : nat -> nat -> T.
Variable pose_valid : nat -> nat -> T.

(* x.view(batch_size, -1, 3): entry (b, j, c) is x[b, 3*j + c] *)
Definition view3 (x : nat -> nat -> T) (bj : nat * nat) : vec3 T :=
  let '(b, j) := bj in
  V3 (x b (3 * j + 0)%nat) (x b (3 * j + 1)%nat) (x b (3 * j + 2)%nat).

(* pose_out = axis_angle_to_matrix(pose_out.view(batch_size,-1,3)) *)
Definition rot_out : nat * nat -> mat3 T := axis_angle_to_matrix (view3 pose_out).
Definition rot_gt : nat * nat -> mat3 T := axis_angle_to_matrix (view3 pose_gt).

(* loss = torch.abs(pose_out - pose_gt) * pose_valid[:,:,None,None] *)
Definition forward (b j : nat) : mat3 T :=
  mmap (fun x => mul x (pose_valid b j))
       (mabs (msub (rot_out (b, j)) (rot_gt (b, j)))).
End Forward.
End PoseLoss.

(** ** The MANO joint table (mano.py, [MANO.__init__]) *)

Module MANO.
Local Open Scope string_scope.

(** [tuple.index(x)]: the first position of [x]; Python raises [ValueError]
    when [x] is absent. *)
Fixpoint index (x : string) (l : list string) : option nat :=
  match l with
  | [] => None
  | y :: l' => if String.eqb y x then Some 0%nat else option_map S (index x l')
  end.

Definition shape_param_dim : nat := 10.

Definition orig_joint_num : nat := 16.
Definition orig_joints_name : list string :=
  ["Wrist"; "Index_1"; "Index_2"; "Index_3"; "Middle_1"; "Middle_2";
   "Middle_3"; "Pinky_1"; "Pinky_2"; "Pinky_3"; "Ring_1"; "Ring_2"; "Ring_3";
   "Thumb_1"; "Thumb_2"; "Thumb_3"].
Definition orig_root_joint_idx : option nat := index "Wrist" orig_joints_name.
Definition orig_flip_pairs : list (nat * nat) := [].

Definition sh_joint_num : nat := 21.
Definition sh_joints_name : list string :=
  ["Wrist"; "Thumb_1"; "Thumb_2"; "Thumb_3"; "Thumb_4"; "Index_1"; "Index_2";
   "Index_3"; "Index_4"; "Middle_1"; "Middle_2"; "Middle_3"; "Middle_4";
   "Ring_1"; "Ring_2"; "Ring_3"; "Ring_4"; "Pinky_1"; "Pinky_2"; "Pinky_3";
   "Pinky_4"].
Definition sh_skeleton : list (nat * nat) :=
  [(0,1); (1,2); (2,3); (3,4); (0,5); (5,6); (6,7); (7,8); (0,9); (9,10);
   (10,11); (11,12); (0,13); (13,14); (14,15); (15,16); (0,17); (17,18);
   (18,19); (19,20)]%nat.
Definition sh_root_joint_idx : option nat := index "Wrist" sh_joints_name.
Definition sh_flip_pairs : list (nat * nat) := [].

Definition th_joint_num : nat := 42.
Definition th_joints_name : list string :=
  ["R_Wrist"; "R_Thumb_1"; "R_Thumb_2"; "R_Thumb_3"; "R_Thumb_4"; "R_Index_1";
   "R_Index_2"; "R_Index_3"; "R_Index_4"; "R_Middle_1"; "R_Middle_2";
   "R_Middle_3"; "R_Middle_4"; "R_Ring_1"; "R_Ring_2"; "R_Ring_3"; "R_Ring_4";
   "R_Pinky_1"; "R_Pinky_2"; "R_Pinky_3"; "R_Pinky_4";
   "L_Wrist"; "L_Thumb_1"; "L_Thumb_2"; "L_Thumb_3"; "L_Thumb_4"; "L_Index_1";
   "L_Index_2"; "L_Index_3"; "L_Index_4"; "L_Middle_1"; "L_Middle_2";
   "L_Middle_3"; "L_Middle_4"; "L_Ring_1"; "L_Ring_2"; "L_Ring_3"; "L_Ring_4";
   "L_Pinky_1"; "L_Pinky_2"; "L_Pinky_3"; "L_Pinky_4"].
Definition th_root_joint_idx_right : option nat := index "R_Wrist" th_joints_name.
Definition th_root_joint_idx_left : option nat := index "L_Wrist" th_joints_name.

(* [(i, i+21) for i in range(21)] *)
Definition th_flip_pairs : list (nat * nat) :=
  map (fun i => (i, i + 21)%nat) (seq 0 21).

(* np.arange(a, b) *)
Definition arange (a b : nat) : list nat := seq a (b - a).

Definition th_joint_type_right : list nat := arange 0 (th_joint_num / 2).
Definition th_joint_type_left : list nat := arange (th_joint_num / 2) th_joint_num.
End MANO.

(** ** Drawing of keypoints (vis.py)

    OpenCV draws in place on [kp_mask], a copy of the input image.  The
    drawing functions are modelled by the calls they make, in order; an
    exception ([IndexError]) is [None]. *)

Module Vis.

(** A call of [cv2.line] or [cv2.circle] on [kp_mask], with the colour type
    of the caller. *)
Inductive call (C : Type) : Type :=
| Line (p1 p2 : Z * Z) (color : C) (thickness : Z)
| Circle (center : Z * Z) (radius : Z) (color : C) (thickness : Z).

Arguments Line {C} p1 p2 color thickness.
Arguments Circle {C} center radius color thickness.

Definition call_color {C : Type} (c : call C) : C :=
  match c with
  | Line _ _ color _ => color
  | Circle _ _ color _ => color
  end.

(** [a[i]] on a sequence or on the first axis of an array: a negative index
    counts from the end, an index outside [[-len, len)] raises. *)
Definition item {A : Type} (a : list A) (i : Z) : option A :=
  if (0 <=? i)%Z then nth_error a (Z.to_nat i)
  else if (- Z.of_nat (List.length a) <=? i)%Z
       then nth_error a (Z.to_nat (Z.of_nat (List.length a) + i))
       else None.

(** [np.linspace(0, 1, num)] for [num] of at least 2: [num] samples with
    step [1 / (num - 1)]. *)
Definition linspace01 (num : nat) : list R :=
  map (fun i => (0 + INR i * ((1 - 0) / INR (num - 1)))%R) (seq 0 num).

(** Exceptions abort the loop: the calls of the iterations, or [None]. *)
Fixpoint for_each {C : Type} (body : nat -> option (list (call C)))
    (range : list nat) : option (list (call C)) :=
  match range with
  | [] => Some []
  | l :: range' =>
      match body l with
      | None => None
      | Some cs => option_map (app cs) (for_each body range')
      end
  end.

Section Drawing.
(* x.astype(np.int32) on a float *)
Variable astype_int32 : R -> Z.
(* plt.get_cmap('rainbow'): an RGBA colour for a number in [0, 1] *)
Variable cmap : R -> R * R * R * R.

(* (kps[i,0].astype(np.int32), kps[i,1].astype(np.int32)) *)
Definition point (kps : list (R * R)) (i : Z) : option (Z * Z) :=
  option_map (fun row => (astype_int32 (fst row), astype_int32 (snd row)))
             (item kps i).

(* colors = [cmap(i) for i in np.linspace(0, 1, n + 2)]
   colors = [(c[2] * 255, c[1] * 255, c[0] * 255) for c in colors] *)
Definition rainbow (n : nat) : list (R * R * R) :=
  map (fun c : R * R * R * R =>
         let '(r, g, b, _) := c in (b * 255, g * 255, r * 255)%R)
      (map cmap (linspace01 (n + 2))).

Section WithSkeleton.
Variable C : Type.
Variable kps : list (R * R).
Variable kps_lines : list (Z * Z).
(* the argument [color]; [None] is Python's None *)
Variable color : option C.

(* the body of the loop over l in range(len(kps_lines)) *)
Definition skeleton_body (colors : list (option C)) (l : nat)
    : option (list (call (option C))) :=
  match nth_error kps_lines l with
  | Some (i1, i2) =>
      match point kps i1, point kps i2, nth_error colors l with
      | Some p1, Some p2, Some c =>
          Some [Line p1 p2 c 2; Circle p1 3 c (-1); Circle p2 3 c (-1)]
      | _, _, _ => None
      end
  | None => None
  end.

(** The calls of [vis_keypoints_with_skeleton].  The colours taken from the
    colour map when [color] is None are replaced, before any use, by
    [skeleton_num] copies of [color]. *)
Definition vis_keypoints_with_skeleton_calls : option (list (call (option C))) :=
  let skeleton_num := List.length kps_lines in
  let colors :=
    match color with
    | None => map Some (rainbow (List.length kps_lines))
    | Some _ => []
    end in
  let colors := repeat color skeleton_num in
  for_each (skeleton_body colors) (seq 0 (List.length kps_lines)).
End WithSkeleton.

(* the body of the loop over i in range(len(kps)) of vis_keypoints *)
Definition keypoints_body (kps : list (R * R)) (colors : list (R * R * R))
    (i : nat) : option (list (call (R * R * R))) :=
  match point kps (Z.of_nat i), nth_error colors i with
  | Some p, Some c => Some [Circle p 3 c (-1)]
  | _, _ => None
  end.

(** The calls of [vis_keypoints]. *)
Definition vis_keypoints_calls (kps : list (R * R))
    : option (list (call (R * R * R))) :=
  let colors := rainbow (List.length kps) in
  for_each (keypoints_body kps colors) (seq 0 (List.length kps)).

(** The images returned: the calls applied to a copy of [img], blended with
    [img] by [cv2.addWeighted(a, alpha, b, beta, gamma)]. *)
Section Images.
Variable image : Type.
Variable addWeighted : image -> R -> image -> R -> R -> image.

Definition vis_keypoints_with_skeleton {C : Type}
    (draw : image -> call (option C) -> image)
    (img : image) (kps : list (R * R)) (kps_lines : list (Z * Z))
    (color : option C) : option image :=
  option_map (fun calls => addWeighted img 0 (fold_left draw calls img) 1 0)
             (vis_keypoints_with_skeleton_calls kps kps_lines color).

Definition vis_keypoints (draw : image -> call (R * R * R) -> image)
    (img : image) (kps : list (R * R)) (alpha : R) : option image :=
  option_map (fun calls =>
                addWeighted img (1 - alpha) (fold_left draw calls img) alpha 0)
             (vis_keypoints_calls kps).
End Images.
End Drawing.
End Vis.

(** ** The demo script (demo.py): the name under which results are saved *)

Module Demo.
Local Open Scope string_scope.

(** [s.split(sep)] for a separator of one character: the pieces between the
    occurrences of [sep], empty pieces included; never the empty list. *)
Fixpoint split (sep : ascii) (s : string) : list string :=
  match s with
  | EmptyString => [EmptyString]
  | String c s' =>
      if Ascii.eqb c sep then EmptyString :: split sep s'
      else match split sep s' with
           | [] => [String c EmptyString]
           | w :: ws => String c w :: ws
           end
  end.

(** [l[-1]]: the last item; Python raises [IndexError] on the empty list. *)
Fixpoint last_item {A : Type} (l : list A) : option A :=
  match l with
  | [] => None
  | [x] => Some x
  | _ :: l' => last_item l'
  end.

(** [s[:-4]]: all but the last four characters, nothing when [s] is shorter. *)
Definition drop_last4 (s : string) : string :=
  substring 0 (String.length s - 4) s.

(* file_name = img_path.split('/')[-1][:-4] *)
Definition file_name (img_path : string) : option string :=
  option_map drop_last4 (last_item (split "/" img_path)).

(** *** The 2D skeleton of one hand (demo.py, lines 117-124) *)

Section Skeleton.
Variable astype_int32 : R -> Z.
Variable cmap : R -> R * R * R * R.
(* bb2img_trans, the 2x3 matrix returned by generate_patch_image: its rows *)
Variable bb2img_trans : vec3 R * vec3 R.
Local Open Scope R_scope.

(* a row of np.concatenate((joint_img[:,:2], np.ones_like(joint_img[:,:1])), 1) *)
Definition xy1 (row : vec3 R) : vec3 R := V3 (v0 row) (v1 row) 1.

(* a row of np.dot(bb2img_trans, x.transpose(1,0)).transpose(1,0) *)
Definition dot_row (row : vec3 R) : R * R :=
  let '(t0, t1) := bb2img_trans in
  (v0 t0 * v0 row + v1 t0 * v1 row + v2 t0 * v2 row,
   v0 t1 * v0 row + v1 t1 * v1 row + v2 t1 * v2 row).

(* purple for the right hand, green for the left *)
Definition hand_color (h : string) : Z * Z * Z :=
  if String.eqb h "right" then (255, 0, 255)%Z else (102, 255, 102)%Z.

(* mano.sh_skeleton, a tuple of pairs of Python ints *)
Definition sh_skeleton : list (Z * Z) :=
  map (fun bone => (Z.of_nat (fst bone), Z.of_nat (snd bone))) MANO.sh_skeleton.

(* vis_keypoints_with_skeleton(vis_skeleton, joint_img, mano.sh_skeleton, color) *)
Definition skeleton_calls (joint_img : list (vec3 R)) (h : string)
    : option (list (Vis.call (option (Z * Z * Z)))) :=
  let joint_img_xy1 := map xy1 joint_img in
  let joint_img := map dot_row joint_img_xy1 in
  Vis.vis_keypoints_with_skeleton_calls astype_int32 cmap joint_img sh_skeleton
    (Some (hand_color h)).
End Skeleton.
End Demo.

(** * Vocabulary of the properties *)

Local Open Scope R_scope.


Definition transpose {T : Type} (m : mat3 T) : mat3 T :=
  M3 (m00 m) (m10 m) (m20 m)
     (m01 m) (m11 m) (m21 m)
     (m02 m) (m12 m) (m22 m).

Definition det3 (m : mat3 R) : R :=
  m00 m * (m11 m * m22 m - m12 m * m21 m)
  - m01 m * (m10 m * m22 m - m12 m * m20 m)
  + m02 m * (m10 m * m21 m - m11 m * m20 m).

(** The cross-product matrix of [a] and the block [I + s K + t K K], as
    the source builds them. *)
Definition cross_matrix (a : vec3 R) : mat3 R :=
  M3 0 (- v2 a) (v1 a)
     (v2 a) 0 (- v0 a)
     (- v1 a) (v0 a) 0.

Definition rodrigues (a : vec3 R) (s t : R) : mat3 R :=
  madd (madd eye3 (mscale s (cross_matrix a)))
       (mscale t (bmm (cross_matrix a) (cross_matrix a))).

Definition sq_norm (a : vec3 R) : R := v0 a * v0 a + v1 a * v1 a + v2 a * v2 a.

Definition vsub (a b : vec3 R) : vec3 R :=
  V3 (v0 a - v0 b) (v1 a - v1 b) (v2 a - v2 b).

(** The matrix of a quarter turn about z. *)
Definition quarter_turn_z : mat3 R :=
  M3 0 (-1) 0
     1 0 0
     0 0 1.

(** Entries of NaN-extended tensors. *)




Definition mall {T : Type} (P : T -> Prop) (m : mat3 T) : Prop :=
  P (m00 m) /\ P (m01 m) /\ P (m02 m) /\
  P (m10 m) /\ P (m11 m) /\ P (m12 m) /\
  P (m20 m) /\ P (m21 m) /\ P (m22 m).


(** The name of a right-hand joint and that of its left-hand mirror differ
    only in the leading [R_] / [L_]. *)
Definition mirrored_names (p : nat * nat) : Prop :=
  exists s : string,
    nth_error MANO.th_joints_name (fst p) = Some ("R_" ++ s)%string /\
    nth_error MANO.th_joints_name (snd p) = Some ("L_" ++ s)%string.

(** The opposite vector, and the entry of a 3-vector at a position. *)
Definition vneg (v : vec3 R) : vec3 R := V3 (- v0 v) (- v1 v) (- v2 v).

Definition vget {T : Type} (c : nat) (v : vec3 T) : T :=
  match c with
  | 0%nat => v0 v
  | 1%nat => v1 v
  | _ => v2 v
  end.

(** A block whose entries mirror across the diagonal. *)
Definition symmetric (m : mat3 R) : Prop :=
  m01 m = m10 m /\ m02 m = m20 m /\ m12 m = m21 m.

(** A string without the path separator. *)
Fixpoint no_slash (s : string) : Prop :=
  match s with
  | EmptyString => True
  | String c s' => c <> "/"%char /\ no_slash s'
  end.

(** An index that an array of [n] rows accepts, and a bone whose two ends
    are such indices. *)
Definition index_ok (n : nat) (i : Z) : Prop :=
  (- Z.of_nat n <= i < Z.of_nat n)%Z.

Definition bone_ok (n : nat) (bone : Z * Z) : Prop :=
  index_ok n (fst bone) /\ index_ok n (snd bone).

(** An RGBA colour of the colour map as the BGR triple handed to OpenCV. *)
Definition bgr255 (c : R * R * R * R) : R * R * R :=
  let '(r, g, b, _) := c in (b * 255, g * 255, r * 255).

(** A block applied to a vector. *)
Definition mvec (m : mat3 R) (v : vec3 R) : vec3 R :=
  V3 (m00 m * v0 v + m01 m * v1 v + m02 m * v2 v)
     (m10 m * v0 v + m11 m * v1 v + m12 m * v2 v)
     (m20 m * v0 v + m21 m * v1 v + m22 m * v2 v).

(** Real tensors seen as overflow-aware ones. *)
Definition vx (v : vec3 R) : vec3 xfloat := vmap XFin v.
Definition mx (m : mat3 R) : mat3 xfloat := mmap XFin m.

(** A real block that is a rotation within 1e-5: Gram matrix entry-wise and
    determinant; an overflow-aware block that is numeric and such a rotation. *)
Definition rotation_1e5 (r : mat3 R) : Prop :=
  mall (fun e => Rabs e <= 1e-5) (msub (bmm (transpose r) r) eye3) /\
  Rabs (det3 r - 1) <= 1e-5.

Definition numeric_rotation (m : mat3 xfloat) : Prop :=
  exists r : mat3 R, m = mx r /\ rotation_1e5 r.

(** * Properties *)

Ltac scalar_ops :=
  cbv [lit add sub mul div neg absv sqrtv sinv cosv acosv clamp ltb
       Scalar_R Scalar_fval] in *.

(** ** Evaluation on concrete inputs *)

Example th_root_joint_idx :
  MANO.th_root_joint_idx_right = Some 0%nat /\
  MANO.th_root_joint_idx_left = Some 21%nat.
Proof. split; reflexivity. Qed.

Example th_flip_pairs_ends :
  nth_error MANO.th_flip_pairs 0 = Some (0, 21)%nat /\
  nth_error MANO.th_flip_pairs 20 = Some (20, 41)%nat /\
  List.length MANO.th_flip_pairs = 21%nat.
Proof. repeat split; reflexivity. Qed.

(** Joint 2 of a row reads the flat positions 6, 7 and 8. *)
Example view3_joint_2 :
  @PoseLoss.view3 nat (fun _ k => k) (0, 2)%nat = V3 6%nat 7%nat 8%nat.
Proof. reflexivity. Qed.

(** An annotated item ([is_3D] = 1) keeps its depth loss. *)
Example CoordLoss_depth_kept :
  CoordLoss.forward (fun _ _ _ => 3) (fun _ _ _ => 1) (fun _ _ _ => 1)
                    (fun _ => 1%Z) 0 0 2 = 2.
Proof.
  unfold CoordLoss.forward, CoordLoss.loss_z, CoordLoss.loss,
    CoordLoss.is_3D_float. cbn [Nat.ltb Nat.leb Nat.sub]. scalar_ops.
  rewrite Rabs_pos_eq by lra. lra.
Qed.

(** A NaN entry of a pose makes the norm, and with it the whole block, NaN. *)
Example axis_angle_to_matrix_of_nan :
  axis_angle_to_matrix (fun _ : unit => V3 (Fin 1) NaN (Fin 0)) tt
  = mmap (fun _ : fval => NaN) eye3.
Proof. reflexivity. Qed.

(** ** The MANO table *)

(** C10: every two-hand flip pair is [(i, i + 21)] and joins the right-hand
    joint [R_x] with the left-hand joint [L_x]; the first components are
    exactly the right-hand indices 0..20 and the second components the
    left-hand indices 21..41 of [th_joint_type]. *)
Theorem th_flip_pairs_mirror :
  Forall (fun p => snd p = (fst p + 21)%nat /\ mirrored_names p)
         MANO.th_flip_pairs /\
  map fst MANO.th_flip_pairs = seq 0 21 /\
  MANO.th_joint_type_right = map fst MANO.th_flip_pairs /\
  MANO.th_joint_type_left = map snd MANO.th_flip_pairs /\
  MANO.th_joint_type_left = seq 21 21 /\
  List.length MANO.th_joints_name = MANO.th_joint_num.
Proof.
  repeat split; try reflexivity.
  unfold MANO.th_flip_pairs; cbn [seq map].
  repeat (apply Forall_cons;
          [ split; [ reflexivity | eexists; split; cbn; reflexivity ] | ]).
  apply Forall_nil.
Qed.

(** ** Real tensors inside NaN-extended ones *)

Lemma sum_sq_nonneg (a b c : R) : 0 <= a * a + b * b + c * c.
Proof. nra. Qed.




Lemma fdiv_nonzero (a b : R) : b <> 0 -> fdiv (Fin a) (Fin b) = Fin (a / b).
Proof.
  intros Hb. unfold fdiv. destruct (Req_dec_T b 0); [contradiction|reflexivity].
Qed.




Lemma norm3_nonneg (v : vec3 R) : 0 <= norm3 v.
Proof. unfold norm3. scalar_ops. apply sqrt_pos. Qed.



(** ** Small-angle override of [axis_angle_to_matrix] *)

(** C3: the identity override of [axis_angle_to_matrix] is decided entry by
    entry: an entry whose angle is below 1e-3 is the identity block, an entry
    whose angle is at least 1e-3 keeps its Rodrigues block, whatever the
    other entries of the batch are; the zero vector gives the identity. *)
Theorem axis_angle_to_matrix_small_angle {I : Type} (aa : I -> vec3 R) (i : I) :
  (norm3 (aa i) < 1e-3 -> axis_angle_to_matrix aa i = eye3) /\
  (1e-3 <= norm3 (aa i) -> axis_angle_to_matrix aa i = AxisAngleToMatrix.R aa i) /\
  (aa i = V3 0 0 0 -> axis_angle_to_matrix aa i = eye3).
Proof.
  unfold axis_angle_to_matrix, AxisAngleToMatrix.result,
    AxisAngleToMatrix.small_angle_mask, AxisAngleToMatrix.angle,
    AxisAngleToMatrix.Id.
  change (ltb (norm3 (aa i)) (lit 1e-3)) with (Rltb (norm3 (aa i)) 1e-3).
  unfold Rltb.
  repeat split.
  - intros Hlt. destruct (Rlt_dec _ _); [reflexivity|contradiction].
  - intros Hge. destruct (Rlt_dec _ _); [lra|reflexivity].
  - intros Hz. rewrite Hz.
    assert (Hn : @norm3 R _ (V3 0 0 0) = 0).
    { unfold norm3; scalar_ops; cbn [v0 v1 v2].
      replace (0 * 0 + 0 * 0 + 0 * 0) with 0 by ring. apply sqrt_0. }
    rewrite Hn. destruct (Rlt_dec _ _); [reflexivity|lra].
Qed.

(** A batch of two entries: the first is overridden, the second is not. *)
Lemma axis_angle_to_matrix_small_angle_witness :
  let aa := fun b : bool => if b then V3 0 0 0 else V3 1 0 0 in
  axis_angle_to_matrix aa true = eye3 /\
  axis_angle_to_matrix aa false = AxisAngleToMatrix.R aa false.
Proof.
  intros aa. split.
  - apply (axis_angle_to_matrix_small_angle aa true). reflexivity.
  - apply (axis_angle_to_matrix_small_angle aa false).
    unfold aa, norm3; scalar_ops; cbn [v0 v1 v2].
    replace (1 * 1 + 0 * 0 + 0 * 0) with 1 by ring. rewrite sqrt_1. lra.
Defined.

(** ** Guards of the two conversions *)


(** ** [CoordLoss] *)



(** ** [PoseLoss] *)

(** In exact real arithmetic equal poses give the zero loss, whatever the mask. *)
Theorem PoseLoss_equal_poses (pose pose_valid : nat -> nat -> R) (b j : nat) :
  PoseLoss.forward pose pose pose_valid b j = zeros33.
Proof.
  unfold PoseLoss.forward, PoseLoss.rot_out, PoseLoss.rot_gt.
  destruct (axis_angle_to_matrix (PoseLoss.view3 pose) (b, j))
    as [a00 a01 a02 a10 a11 a12 a20 a21 a22].
  unfold mabs, msub, mzip, mmap, zeros33, eye3;
    cbn [m00 m01 m02 m10 m11 m12 m20 m21 m22]. scalar_ops.
  rewrite !Rminus_diag, Rabs_R0, !Rmult_0_l. reflexivity.
Qed.


Lemma axis_angle_to_matrix_local {T : Type} `{Scalar T} {I J : Type}
    (aa : I -> vec3 T) (aa' : J -> vec3 T) (i : I) (k : J) :
  aa i = aa' k -> axis_angle_to_matrix aa i = axis_angle_to_matrix aa' k.
Proof.
  intros E.
  unfold axis_angle_to_matrix, AxisAngleToMatrix.result,
    AxisAngleToMatrix.small_angle_mask, AxisAngleToMatrix.R,
    AxisAngleToMatrix.Id, AxisAngleToMatrix.K, AxisAngleToMatrix.sin_angle,
    AxisAngleToMatrix.cos_angle, AxisAngleToMatrix.axis, AxisAngleToMatrix.angle.
  rewrite E. reflexivity.
Qed.








(** ** Algebra of the Rodrigues block *)

Lemma R_is_rodrigues {I : Type} (aa : I -> vec3 R) (i : I) :
  AxisAngleToMatrix.R aa i
  = rodrigues (AxisAngleToMatrix.axis aa i)
              (sin (AxisAngleToMatrix.angle aa i))
              (1 - cos (AxisAngleToMatrix.angle aa i)).
Proof. reflexivity. Qed.

Ltac block_ops :=
  cbv [rodrigues cross_matrix transpose det3 sq_norm zeros33 madd msub mabs
       mscale mzip bmm mmap eye3 vdiv vscale vmap vsub zeros3
       m00 m01 m02 m10 m11 m12 m20 m21 m22 v0 v1 v2
       lit add sub mul div neg absv sqrtv sinv cosv acosv clamp ltb
       Scalar_R Scalar_fval].

Ltac block_ops_in H :=
  cbv [rodrigues cross_matrix transpose det3 sq_norm zeros33 madd msub mabs
       mscale mzip bmm mmap eye3 vdiv vscale vmap vsub zeros3
       m00 m01 m02 m10 m11 m12 m20 m21 m22 v0 v1 v2
       lit add sub mul div neg absv sqrtv sinv cosv acosv clamp ltb
       Scalar_R Scalar_fval] in H.

Lemma mat3_eq (a b : mat3 R) :
  m00 a = m00 b -> m01 a = m01 b -> m02 a = m02 b ->
  m10 a = m10 b -> m11 a = m11 b -> m12 a = m12 b ->
  m20 a = m20 b -> m21 a = m21 b -> m22 a = m22 b -> a = b.
Proof. destruct a, b; cbn; intros; subst; reflexivity. Qed.

Lemma rodrigues_gram (a : vec3 R) (s t : R) :
  msub (bmm (transpose (rodrigues a s t)) (rodrigues a s t)) eye3
  = mscale (2 * t - s * s - t * t * sq_norm a)
           (bmm (cross_matrix a) (cross_matrix a)).
Proof. destruct a as [a0 a1 a2]. apply mat3_eq; block_ops; ring. Qed.

Lemma rodrigues_det (a : vec3 R) (s t : R) :
  det3 (rodrigues a s t)
  = (1 - t * sq_norm a) * (1 - t * sq_norm a) + s * s * sq_norm a.
Proof. destruct a as [a0 a1 a2]. block_ops. ring. Qed.

Lemma rodrigues_trace (a : vec3 R) (s t : R) :
  m00 (rodrigues a s t) + m11 (rodrigues a s t) + m22 (rodrigues a s t)
  = 3 - 2 * t * sq_norm a.
Proof. destruct a as [a0 a1 a2]. block_ops. ring. Qed.

Lemma rodrigues_skew (a : vec3 R) (s t : R) :
  m21 (rodrigues a s t) - m12 (rodrigues a s t) = 2 * s * v0 a /\
  m02 (rodrigues a s t) - m20 (rodrigues a s t) = 2 * s * v1 a /\
  m10 (rodrigues a s t) - m01 (rodrigues a s t) = 2 * s * v2 a.
Proof. destruct a as [a0 a1 a2]. block_ops. repeat split; ring. Qed.

(** Entries of [K K] are bounded by the squared norm of the axis. *)
Lemma cross_sq_bound (a : vec3 R) :
  mall (fun e => Rabs e <= sq_norm a) (bmm (cross_matrix a) (cross_matrix a)).
Proof.
  destruct a as [a0 a1 a2]. unfold mall. block_ops.
  repeat split; apply Rabs_le; split; nra.
Qed.

(** ** Analytic bounds *)

Lemma PI_gt_3 : 3 < PI.
Proof. pose proof PI2_3_2. lra. Qed.

Lemma sin_sq_le (t : R) : sin t * sin t <= t * t.
Proof.
  assert (Hpos : forall x, 0 <= x -> sin x * sin x <= x * x).
  { intros x Hx. pose proof (SIN_bound x) as [Hlo Hhi].
    destruct (Rle_lt_dec x 1) as [Hx1|Hx1].
    - assert (0 <= sin x).
      { apply sin_ge_0; [exact Hx|]. pose proof PI_gt_3. lra. }
      assert (sin x <= x).
      { destruct Hx as [Hx|Hx]; [left; apply sin_lt_x; exact Hx|].
        subst. rewrite sin_0. lra. }
      nra.
    - nra. }
  destruct (Rle_lt_dec 0 t) as [Ht|Ht]; [apply Hpos; exact Ht|].
  replace (sin t * sin t) with (sin (- t) * sin (- t))
    by (rewrite sin_neg; ring).
  replace (t * t) with (- t * - t) by ring.
  apply Hpos. lra.
Qed.

Lemma one_minus_cos_le (t : R) : 1 - cos t <= t * t / 2.
Proof.
  replace t with (2 * (t / 2)) at 1 by field.
  rewrite cos_2a_sin. pose proof (sin_sq_le (t / 2)). nra.
Qed.

Lemma one_minus_cos_range (t : R) : 0 <= 1 - cos t <= 2.
Proof. pose proof (COS_bound t). lra. Qed.

Lemma sin_cos_sq (t : R) : sin t * sin t = 1 - cos t * cos t.
Proof. pose proof (sin2_cos2 t) as E. unfold Rsqr in E. lra. Qed.

(** The guarded normalisation [t / (t + 1e-8)]. *)
Lemma guarded_ratio (t : R) :
  0 <= t ->
  0 <= t / (t + 1e-8) < 1 /\
  t / (t + 1e-8) * (t + 1e-8) = t /\
  (1 - t / (t + 1e-8)) * (t + 1e-8) = 1e-8.
Proof.
  intros Ht. assert (Hd : 0 < t + 1e-8) by lra.
  assert (E : t / (t + 1e-8) * (t + 1e-8) = t) by (field; lra).
  repeat split.
  - apply Rmult_le_reg_r with (t + 1e-8); [exact Hd|]. rewrite E. lra.
  - apply Rmult_lt_reg_r with (t + 1e-8); [exact Hd|]. rewrite E. lra.
  - exact E.
  - rewrite Rmult_minus_distr_r, E. lra.
Qed.

(** The defect of the block from a rotation: [(1 - cos t)^2 (1 - u^2)] with
    [u = t / (t + 1e-8)]. *)
Lemma defect_bound (t : R) :
  0 <= t ->
  0 <= (1 - cos t) * (1 - cos t)
       * (1 - t / (t + 1e-8) * (t / (t + 1e-8))) <= 8e-8.
Proof.
  intros Ht.
  destruct (guarded_ratio Ht) as [[Hu0 Hu1] [Hud Hvd]].
  pose proof (one_minus_cos_range t) as [Hb0 Hb2].
  pose proof (one_minus_cos_le t) as Hb.
  set (u := t / (t + 1e-8)) in *. set (b := 1 - cos t) in *.
  assert (Hw : 0 <= 1 - u * u) by nra.
  split; [apply Rmult_le_pos; [nra|exact Hw]|].
  assert (Hw2 : (1 - u * u) * (t + 1e-8) <= 2e-8) by nra.
  destruct (Rle_lt_dec 1 t) as [H1|H1].
  - assert (1 - u * u <= 2e-8) by nra.
    assert (b * b <= 4) by nra. nra.
  - assert (Hbb : b * b <= t / 4).
    { assert (b <= t / 2) by nra. assert (b <= 1 / 2) by nra. nra. }
    assert (Hq : (b * b) * (1 - u * u) * (t + 1e-8) <= t / 4 * 2e-8).
    { rewrite Rmult_assoc.
      apply Rmult_le_compat; [nra|nra|exact Hbb|exact Hw2]. }
    assert (Hd : 0 < t + 1e-8) by lra.
    apply Rmult_le_reg_r with (t + 1e-8); [exact Hd|]. nra.
Qed.

(** ** [axis_angle_to_matrix] returns rotations *)

Lemma axis_angle_to_matrix_cases {I : Type} (aa : I -> vec3 R) (i : I) :
  (AxisAngleToMatrix.angle aa i < 1e-3 /\ axis_angle_to_matrix aa i = eye3) \/
  (1e-3 <= AxisAngleToMatrix.angle aa i /\
   axis_angle_to_matrix aa i = AxisAngleToMatrix.R aa i).
Proof.
  unfold axis_angle_to_matrix, AxisAngleToMatrix.result,
    AxisAngleToMatrix.small_angle_mask, AxisAngleToMatrix.Id.
  change (ltb (AxisAngleToMatrix.angle aa i) (lit 1e-3))
    with (Rltb (AxisAngleToMatrix.angle aa i) 1e-3).
  unfold Rltb. destruct (Rlt_dec _ _) as [Hlt|Hge]; [left|right]; split;
    try reflexivity; lra.
Qed.

Lemma angle_nonneg {I : Type} (aa : I -> vec3 R) (i : I) :
  0 <= AxisAngleToMatrix.angle aa i.
Proof. apply norm3_nonneg. Qed.

Lemma angle_sq {I : Type} (aa : I -> vec3 R) (i : I) :
  AxisAngleToMatrix.angle aa i * AxisAngleToMatrix.angle aa i = sq_norm (aa i).
Proof.
  unfold AxisAngleToMatrix.angle, norm3, sq_norm. scalar_ops.
  apply sqrt_sqrt. apply sum_sq_nonneg.
Qed.

Lemma axis_sq_norm {I : Type} (aa : I -> vec3 R) (i : I) :
  sq_norm (AxisAngleToMatrix.axis aa i)
  = AxisAngleToMatrix.angle aa i / (AxisAngleToMatrix.angle aa i + 1e-8)
    * (AxisAngleToMatrix.angle aa i / (AxisAngleToMatrix.angle aa i + 1e-8)).
Proof.
  pose proof (angle_nonneg aa i) as Ht. pose proof (angle_sq aa i) as Hs.
  unfold AxisAngleToMatrix.axis.
  set (t := AxisAngleToMatrix.angle aa i) in *.
  destruct (aa i) as [x y z]. block_ops_in Hs. block_ops.
  transitivity ((x * x + y * y + z * z) / ((t + 1e-8) * (t + 1e-8))).
  - field. lra.
  - rewrite <- Hs. field. lra.
Qed.

(** The Gram defect and the determinant of the Rodrigues block of an entry. *)
Lemma R_defect {I : Type} (aa : I -> vec3 R) (i : I) :
  let t := AxisAngleToMatrix.angle aa i in
  let a := AxisAngleToMatrix.axis aa i in
  let e := (1 - cos t) * (1 - cos t) * (1 - sq_norm a) in
  0 <= e <= 8e-8 /\ 0 <= sq_norm a < 1 /\
  2 * (1 - cos t) - sin t * sin t - (1 - cos t) * (1 - cos t) * sq_norm a = e /\
  (1 - (1 - cos t) * sq_norm a) * (1 - (1 - cos t) * sq_norm a)
    + sin t * sin t * sq_norm a = 1 - sq_norm a * e.
Proof.
  intros t a e. subst e a.
  pose proof (angle_nonneg aa i) as Ht. fold t in Ht.
  rewrite (axis_sq_norm aa i). fold t.
  pose proof (defect_bound Ht) as Hd.
  destruct (guarded_ratio Ht) as [[Hu0 Hu1] _].
  set (u := t / (t + 1e-8)) in *.
  rewrite (sin_cos_sq t).
  repeat split; try lra; try nra; ring.
Qed.

(** In exact real arithmetic every block returned by [axis_angle_to_matrix] is orthonormal with
    determinant 1, within 1e-5 (entry-wise for the Gram matrix), for every
    real axis-angle vector, overridden entries included. *)
Theorem axis_angle_to_matrix_rotation {I : Type} (aa : I -> vec3 R) (i : I) :
  mall (fun e => Rabs e <= 1e-5)
       (msub (bmm (transpose (axis_angle_to_matrix aa i))
                  (axis_angle_to_matrix aa i)) eye3) /\
  Rabs (det3 (axis_angle_to_matrix aa i) - 1) <= 1e-5.
Proof.
  destruct (axis_angle_to_matrix_cases aa i) as [[_ ->]|[_ ->]].
  - unfold mall. block_ops.
    repeat split; apply Rabs_le; split; lra.
  - rewrite R_is_rodrigues, rodrigues_gram, rodrigues_det.
    destruct (R_defect aa i) as [[He0 He1] [[Hs0 Hs1] [-> ->]]].
    pose proof (cross_sq_bound (AxisAngleToMatrix.axis aa i)) as Hk.
    set (a := AxisAngleToMatrix.axis aa i) in *.
    set (e := (1 - cos _) * (1 - cos _) * (1 - sq_norm a)) in *.
    split.
    + destruct (bmm (cross_matrix a) (cross_matrix a)).
      unfold mall, mscale, mmap in *;
        cbn [m00 m01 m02 m10 m11 m12 m20 m21 m22] in *. scalar_ops.
      assert (Hent : forall k, Rabs k <= sq_norm a -> Rabs (e * k) <= 1e-5).
      { intros k Hk'. rewrite Rabs_mult, (Rabs_pos_eq e He0).
        pose proof (Rabs_pos k). nra. }
      repeat split; apply Hent; tauto.
    + replace (1 - sq_norm a * e - 1) with (- (sq_norm a * e)) by ring.
      rewrite Rabs_Ropp, Rabs_pos_eq; nra.
Qed.

(** ** A quarter turn about z *)

(** C8: the batch holding the single vector [[0, 0, PI/2]] is mapped to the
    quarter turn about z, every entry within 1e-5. *)
Theorem axis_angle_to_matrix_quarter_turn_z :
  mall (fun e => Rabs e <= 1e-5)
       (msub (axis_angle_to_matrix (fun _ : unit => V3 0 0 (PI / 2)) tt)
             quarter_turn_z).
Proof.
  set (aa := fun _ : unit => V3 0 0 (PI / 2)).
  pose proof PI_gt_3 as Hpi.
  assert (Hang : AxisAngleToMatrix.angle aa tt = PI / 2).
  { unfold AxisAngleToMatrix.angle, aa, norm3. block_ops.
    replace (0 * 0 + 0 * 0 + PI / 2 * (PI / 2)) with (PI / 2 * (PI / 2)) by ring.
    apply sqrt_square. lra. }
  destruct (axis_angle_to_matrix_cases aa tt) as [[Hlt _]|[_ ->]]; [lra|].
  rewrite R_is_rodrigues. unfold AxisAngleToMatrix.axis. rewrite Hang.
  rewrite sin_PI2, cos_PI2.
  assert (Ht : 0 <= PI / 2) by lra.
  destruct (guarded_ratio Ht) as [[Hu0 Hu1] [_ Hvd]].
  unfold aa, quarter_turn_z, mall. block_ops.
  set (u := PI / 2 / (PI / 2 + 1e-8)) in *.
  replace (0 / (PI / 2 + 1e-8)) with 0 by (field; lra).
  assert (Hu : 1 - u <= 1e-8) by nra.
  repeat split; apply Rabs_le; split; nra.
Qed.

(** ** [matrix_to_axis_angle] *)

Lemma matrix_to_axis_angle_cases {I : Type} (m : I -> mat3 R) (i : I) :
  (MatrixToAxisAngle.angle m i < 1e-3 /\ matrix_to_axis_angle m i = zeros3) \/
  (1e-3 <= MatrixToAxisAngle.angle m i /\
   matrix_to_axis_angle m i = MatrixToAxisAngle.axis_angle m i).
Proof.
  unfold matrix_to_axis_angle, MatrixToAxisAngle.result,
    MatrixToAxisAngle.small_angle_mask.
  change (ltb (MatrixToAxisAngle.angle m i) (lit 1e-3))
    with (Rltb (MatrixToAxisAngle.angle m i) 1e-3).
  unfold Rltb. destruct (Rlt_dec _ _) as [Hlt|Hge]; [left|right]; split;
    try reflexivity; lra.
Qed.

Lemma norm3_sq (v : vec3 R) : norm3 v * norm3 v = sq_norm v.
Proof.
  unfold norm3, sq_norm. scalar_ops. apply sqrt_sqrt. apply sum_sq_nonneg.
Qed.

Lemma norm3_sqrt (v : vec3 R) : norm3 v = sqrt (sq_norm v).
Proof. reflexivity. Qed.

Lemma norm3_le (v : vec3 R) (c : R) : 0 <= c -> sq_norm v <= c * c -> norm3 v <= c.
Proof.
  intros Hc Hv. rewrite norm3_sqrt, <- (sqrt_square c Hc).
  apply sqrt_le_1_alt. exact Hv.
Qed.


Lemma sq_norm_vscale (s : R) (v : vec3 R) :
  sq_norm (vscale s v) = s * s * sq_norm v.
Proof. destruct v. block_ops. ring. Qed.

Lemma matrix_angle_range {I : Type} (m : I -> mat3 R) (i : I) :
  0 <= MatrixToAxisAngle.angle m i <= PI.
Proof. unfold MatrixToAxisAngle.angle. scalar_ops. apply acos_bound. Qed.

(** A block that is no rotation, of trace 15: the clamp hands 1 to [acos],
    the angle is 0 and the zero vector is returned. *)
Example matrix_to_axis_angle_trace_15 :
  matrix_to_axis_angle (fun _ : unit => M3 5 0 0 0 5 0 0 0 5) tt = zeros3.
Proof.
  set (m := fun _ : unit => M3 5 0 0 0 5 0 0 0 5).
  assert (Harg : MatrixToAxisAngle.acos_arg m tt = 1).
  { unfold MatrixToAxisAngle.acos_arg, MatrixToAxisAngle.trace, m. block_ops.
    unfold Rmin, Rmax.
    destruct (Rle_dec ((5 + 5 + 5 - 1) / 2) (-1)); [lra|].
    destruct (Rle_dec _ 1); lra. }
  destruct (matrix_to_axis_angle_cases m tt) as [[_ E]|[Hge _]]; [exact E|].
  unfold MatrixToAxisAngle.angle in Hge. rewrite Harg in Hge.
  change (@acosv R _ 1) with (acos 1) in Hge. rewrite acos_1 in Hge. lra.
Qed.


(** ** Round trip *)

Lemma sin_half (x : R) : 0 <= x <= 1 -> x / 2 <= sin x.
Proof.
  intros [H0 H1].
  assert (Hpi : x <= PI) by (pose proof PI_gt_3; lra).
  pose proof (sin_bound x 0 H0 Hpi) as [Hlb _].
  unfold sin_approx, sin_term in Hlb.
  cbn [sum_f_R0 Nat.mul Nat.add Factorial.fact pow INR] in Hlb.
  nra.
Qed.

Lemma sin_away_from_ends (t : R) : 0.01 <= t <= PI - 0.01 -> 0.005 <= sin t.
Proof.
  intros [H0 H1]. pose proof PI_gt_3 as Hpi.
  assert (He : 0 <= 0.01 <= 1) by lra.
  assert (Hs : 0.005 <= sin 0.01) by (pose proof (sin_half He); lra).
  apply Rle_trans with (sin 0.01); [exact Hs|].
  destruct (Rle_lt_dec t (PI / 2)) as [Hle|Hgt].
  - apply sin_incr_1; lra.
  - rewrite <- (sin_PI_x t). apply sin_incr_1; lra.
Qed.

Lemma cos_le_angle_ge (x y : R) :
  0 <= x <= PI -> 0 <= y <= PI -> cos x <= cos y -> y <= x.
Proof.
  intros Hx Hy Hc. destruct (Rle_lt_dec y x) as [Hle|Hlt]; [exact Hle|].
  pose proof (cos_decreasing_1 x y). lra.
Qed.

(** The two scalar steps of the round trip at an angle [t]: the angle read
    back from the trace, and the factor lost by the second normalisation. *)
Lemma round_trip_angle (t : R) :
  0.01 < t < PI - 0.01 ->
  let u := t / (t + 1e-8) in
  let x := 1 - (1 - cos t) * (u * u) in
  let n := 2 * sin t * u in
  -1 <= x <= 1 /\
  0 <= n /\
  1e-3 <= acos x /\
  0 <= t - acos x * (n / (n + 1e-8)) <= 1e-4.
Proof.
  intros [Ht0 Ht1] u x n.
  pose proof PI_gt_3 as Hpi3. pose proof PI_4 as Hpi4.
  assert (Ht : 0 <= t) by lra.
  destruct (guarded_ratio Ht) as [[Hu0 Hu1] [Hud Hvd]]. fold u in Hu0, Hu1, Hud, Hvd.
  pose proof (one_minus_cos_range t) as [Hb0 Hb2].
  pose proof (one_minus_cos_le t) as Hb.
  assert (Hs : 0.005 <= sin t) by (apply sin_away_from_ends; lra).
  pose proof (COS_bound t) as [Hc0 Hc1].
  set (b := 1 - cos t) in *.
  assert (Hu99 : 0.99 <= u) by nra.
  assert (Huu : 0 <= u * u <= 1) by nra.
  assert (Hx : -1 <= x <= 1) by (unfold x; nra).
  assert (Hn : 0.0099 <= n) by (unfold n; nra).
  pose proof (acos_bound x) as [Ha0 Ha1].
  pose proof (cos_acos x Hx) as Hca.
  set (t' := acos x) in *.
  (* the angle read back is at most t ... *)
  assert (Hle : t' <= t).
  { apply cos_le_angle_ge; [lra|lra|]. rewrite Hca. unfold x, b. nra. }
  (* ... and at least t - 5e-5 *)
  assert (Hge : t - 5e-5 <= t').
  { apply cos_le_angle_ge; [lra|lra|]. rewrite Hca, cos_minus.
    assert (He : 0 <= 5e-5 <= 1) by lra.
    pose proof (sin_half He) as Hse.
    pose proof (one_minus_cos_le 5e-5) as Hce.
    pose proof (one_minus_cos_range 5e-5) as [Hce0 _].
    set (se := sin 5e-5) in *. set (ce := cos 5e-5) in *.
    assert (Hw : b * (1 - u * u) <= 4e-8).
    { assert (Hw1 : (1 - u * u) * (t + 1e-8) <= 2e-8) by nra.
      assert (Hw0 : 0 <= 1 - u * u) by nra.
      assert (Hq : b * (1 - u * u) * (t + 1e-8) <= t * t / 2 * 2e-8).
      { rewrite Rmult_assoc. apply Rmult_le_compat; [lra|nra|lra|exact Hw1]. }
      apply Rmult_le_reg_r with (t + 1e-8); [lra|]. nra. }
    assert (Hcc : cos t * (1 - ce) <= 1.25e-9) by nra.
    assert (Hss : 1.25e-7 <= sin t * se) by nra.
    unfold x. fold b. unfold b in Hw |- *. nra. }
  split; [exact Hx|]. split; [lra|]. split; [lra|].
  assert (Hnd : 0 < n + 1e-8) by lra.
  assert (Hw : (1 - n / (n + 1e-8)) * (n + 1e-8) = 1e-8) by (field; lra).
  set (w := n / (n + 1e-8)) in *.
  assert (Hw1 : 0 <= 1 - w <= 1.02e-6) by nra.
  nra.
Qed.

Lemma clamp_inside (y : R) : -1 <= y <= 1 -> Rmin (Rmax y (-1)) 1 = y.
Proof.
  intros [Hlo Hhi]. unfold Rmin, Rmax.
  destruct (Rle_dec y (-1)); destruct (Rle_dec _ 1); lra.
Qed.

Lemma entry_le_norm (v : vec3 R) :
  Rabs (v0 v) <= norm3 v /\ Rabs (v1 v) <= norm3 v /\ Rabs (v2 v) <= norm3 v.
Proof.
  pose proof (norm3_nonneg v) as Hn. pose proof (norm3_sq v) as Hs.
  set (n := norm3 v) in *. destruct v as [x y z]. block_ops_in Hs. block_ops.
  repeat split; apply Rabs_le; split; nra.
Qed.

(** What [matrix_to_axis_angle] returns on the block computed from an entry
    whose angle [t] lies in (0.01, PI - 0.01): the entry scaled by
    [k / t], where [k] is within 1e-4 below [t]. *)
Lemma round_trip_scaled {I : Type} (aa : I -> vec3 R) (i : I) :
  0.01 < norm3 (aa i) < PI - 0.01 ->
  exists k : R,
    0 <= norm3 (aa i) - k <= 1e-4 /\
    matrix_to_axis_angle (axis_angle_to_matrix aa) i
    = vscale (k / norm3 (aa i)) (aa i).
Proof.
  intros Hrange.
  change (norm3 (aa i)) with (AxisAngleToMatrix.angle aa i) in *.
  destruct (round_trip_angle Hrange) as [Hx [Hn [Hbig Herr]]].
  pose proof (axis_sq_norm aa i) as Hq.
  set (t := AxisAngleToMatrix.angle aa i) in *.
  set (u := t / (t + 1e-8)) in *.
  set (x := 1 - (1 - cos t) * (u * u)) in *.
  set (n := 2 * sin t * u) in *.
  assert (HR : axis_angle_to_matrix aa i
               = rodrigues (AxisAngleToMatrix.axis aa i) (sin t) (1 - cos t)).
  { destruct (axis_angle_to_matrix_cases aa i) as [[Hlt _]|[_ ->]].
    - fold t in Hlt. lra.
    - apply R_is_rodrigues. }
  set (a := AxisAngleToMatrix.axis aa i) in *.
  assert (Harg : MatrixToAxisAngle.acos_arg (axis_angle_to_matrix aa) i = x).
  { unfold MatrixToAxisAngle.acos_arg, MatrixToAxisAngle.trace. scalar_ops.
    rewrite HR, rodrigues_trace, Hq.
    replace ((3 - 2 * (1 - cos t) * (u * u) - 1) / 2) with x by (unfold x; field).
    apply clamp_inside. exact Hx. }
  assert (Hang : MatrixToAxisAngle.angle (axis_angle_to_matrix aa) i = acos x).
  { unfold MatrixToAxisAngle.angle. rewrite Harg. reflexivity. }
  assert (Hax : MatrixToAxisAngle.axis (axis_angle_to_matrix aa) i
                = vscale (2 * sin t) a).
  { unfold MatrixToAxisAngle.axis. scalar_ops. rewrite HR.
    destruct (rodrigues_skew a (sin t) (1 - cos t)) as [-> [-> ->]].
    reflexivity. }
  assert (Hnorm : MatrixToAxisAngle.axis_norm (axis_angle_to_matrix aa) i = n).
  { unfold MatrixToAxisAngle.axis_norm. rewrite Hax, norm3_sqrt, sq_norm_vscale, Hq.
    replace (2 * sin t * (2 * sin t) * (u * u)) with (n * n) by (unfold n; ring).
    apply sqrt_square. exact Hn. }
  exists (acos x * (n / (n + 1e-8))). split; [exact Herr|].
  destruct (matrix_to_axis_angle_cases (axis_angle_to_matrix aa) i)
    as [[Hlt _]|[_ ->]].
  { rewrite Hang in Hlt. lra. }
  unfold MatrixToAxisAngle.axis_angle, MatrixToAxisAngle.axis_unit.
  rewrite Hang, Hnorm, Hax.
  unfold a, AxisAngleToMatrix.axis. fold t.
  assert (Hs2 : 2 * sin t = n * (t + 1e-8) / t) by (unfold n, u; field; lra).
  rewrite Hs2.
  destruct (aa i) as [p q r]. block_ops.
  f_equal; field; lra.
Qed.

(** C1: for an entry whose magnitude lies in (0.01, PI - 0.01), converting to
    a matrix and back returns the entry within 1e-4, in each coordinate and in
    Euclidean norm. *)
Theorem matrix_to_axis_angle_left_inverse {I : Type} (aa : I -> vec3 R) (i : I) :
  0.01 < norm3 (aa i) < PI - 0.01 ->
  Rabs (v0 (matrix_to_axis_angle (axis_angle_to_matrix aa) i) - v0 (aa i)) <= 1e-4 /\
  Rabs (v1 (matrix_to_axis_angle (axis_angle_to_matrix aa) i) - v1 (aa i)) <= 1e-4 /\
  Rabs (v2 (matrix_to_axis_angle (axis_angle_to_matrix aa) i) - v2 (aa i)) <= 1e-4 /\
  norm3 (vsub (matrix_to_axis_angle (axis_angle_to_matrix aa) i) (aa i)) <= 1e-4.
Proof.
  intros Hrange.
  destruct (round_trip_scaled aa i Hrange) as [k [Hk ->]].
  pose proof (entry_le_norm (aa i)) as [H0 [H1 H2]].
  pose proof (norm3_sq (aa i)) as Hs.
  set (t := norm3 (aa i)) in *.
  assert (Ht : 0 < t) by lra.
  assert (Hent : forall p, Rabs p <= t -> Rabs (k / t * p - p) <= 1e-4).
  { intros p Hp.
    replace (k / t * p - p) with (- ((t - k) / t * p)) by (field; lra).
    rewrite Rabs_Ropp, Rabs_mult.
    assert (Hr : 0 <= (t - k) / t) by (apply Rmult_le_pos; [lra|left; apply Rinv_0_lt_compat; exact Ht]).
    rewrite (Rabs_pos_eq _ Hr).
    assert (Hrt : (t - k) / t * t = t - k) by (field; lra).
    pose proof (Rabs_pos p). nra. }
  destruct (aa i) as [p q r]. block_ops_in H0. block_ops_in H1. block_ops_in H2.
  block_ops_in Hs. block_ops.
  repeat split; try (apply Hent; assumption).
  apply norm3_le; [lra|]. block_ops.
  replace ((k / t * p - p) * (k / t * p - p) + (k / t * q - q) * (k / t * q - q)
           + (k / t * r - r) * (k / t * r - r))
    with ((t - k) / t * ((t - k) / t) * (p * p + q * q + r * r)) by (field; lra).
  rewrite <- Hs.
  replace ((t - k) / t * ((t - k) / t) * (t * t)) with ((t - k) * (t - k)) by (field; lra).
  nra.
Qed.

(** The unit vector along x: its magnitude 1 lies in the range. *)
Lemma matrix_to_axis_angle_left_inverse_witness :
  let aa := fun _ : unit => V3 1 0 0 in
  Rabs (v0 (matrix_to_axis_angle (axis_angle_to_matrix aa) tt) - 1) <= 1e-4 /\
  Rabs (v1 (matrix_to_axis_angle (axis_angle_to_matrix aa) tt) - 0) <= 1e-4 /\
  Rabs (v2 (matrix_to_axis_angle (axis_angle_to_matrix aa) tt) - 0) <= 1e-4 /\
  norm3 (vsub (matrix_to_axis_angle (axis_angle_to_matrix aa) tt) (aa tt)) <= 1e-4.
Proof.
  intros aa.
  apply (matrix_to_axis_angle_left_inverse aa tt).
  unfold aa, norm3; scalar_ops; cbn [v0 v1 v2].
  replace (1 * 1 + 0 * 0 + 0 * 0) with 1 by ring. rewrite sqrt_1.
  pose proof PI_gt_3. lra.
Defined.

(** Beyond PI the round trip is lost: the vector [[0, 0, 3 PI / 2]] comes back
    with a third coordinate that is not positive. *)
Remark round_trip_beyond_PI :
  v2 (matrix_to_axis_angle
        (axis_angle_to_matrix (fun _ : unit => V3 0 0 (3 * (PI / 2)))) tt) <= 0.
Proof.
  set (aa := fun _ : unit => V3 0 0 (3 * (PI / 2))).
  pose proof PI_gt_3 as Hpi.
  assert (Hang : AxisAngleToMatrix.angle aa tt = 3 * (PI / 2)).
  { unfold AxisAngleToMatrix.angle, aa, norm3. block_ops.
    replace (0 * 0 + 0 * 0 + 3 * (PI / 2) * (3 * (PI / 2)))
      with (3 * (PI / 2) * (3 * (PI / 2))) by ring.
    apply sqrt_square. lra. }
  assert (HR : axis_angle_to_matrix aa tt
               = rodrigues (AxisAngleToMatrix.axis aa tt) (-1) 1).
  { destruct (axis_angle_to_matrix_cases aa tt) as [[Hlt _]|[_ ->]]; [lra|].
    rewrite R_is_rodrigues, Hang, sin_3PI2, cos_3PI2.
    f_equal. ring. }
  assert (Ht : 0 <= 3 * (PI / 2)) by lra.
  destruct (guarded_ratio Ht) as [[Hu0 _] _].
  destruct (matrix_to_axis_angle_cases (axis_angle_to_matrix aa) tt)
    as [[_ ->]|[_ ->]].
  - block_ops. lra.
  - pose proof (matrix_angle_range (axis_angle_to_matrix aa) tt) as [Ha0 _].
    pose proof (norm3_nonneg (MatrixToAxisAngle.axis (axis_angle_to_matrix aa) tt))
      as Hn.
    unfold MatrixToAxisAngle.axis_angle, MatrixToAxisAngle.axis_unit,
      MatrixToAxisAngle.axis_norm.
    set (t' := MatrixToAxisAngle.angle (axis_angle_to_matrix aa) tt) in *.
    set (n := norm3 (MatrixToAxisAngle.axis (axis_angle_to_matrix aa) tt)) in *.
    assert (Hax : AxisAngleToMatrix.axis aa tt
                  = V3 (0 / (3 * (PI / 2) + 1e-8)) (0 / (3 * (PI / 2) + 1e-8))
                       (3 * (PI / 2) / (3 * (PI / 2) + 1e-8))).
    { unfold AxisAngleToMatrix.axis. rewrite Hang. reflexivity. }
    set (u := 3 * (PI / 2) / (3 * (PI / 2) + 1e-8)) in *.
    unfold MatrixToAxisAngle.axis. rewrite HR, Hax.
    destruct (rodrigues_skew (V3 (0 / (3 * (PI / 2) + 1e-8))
                                 (0 / (3 * (PI / 2) + 1e-8)) u) (-1) 1)
      as [_ [_ E]].
    block_ops. block_ops_in E. rewrite E.
    assert (Hq : 2 * -1 * u / (n + 1e-8) <= 0).
    { apply Rmult_le_reg_r with (n + 1e-8); [lra|].
      replace (2 * -1 * u / (n + 1e-8) * (n + 1e-8)) with (2 * -1 * u)
        by (field; lra). lra. }
    nra.
Qed.

(** * Further properties of the conversions *)

Lemma norm3_vneg (v : vec3 R) : norm3 (vneg v) = norm3 v.
Proof.
  destruct v as [x y z]. unfold norm3, vneg. block_ops. f_equal. ring.
Qed.

(** X1: negating the axis-angle vector transposes the block: the opposite
    rotation about the same axis. *)
Theorem axis_angle_to_matrix_vneg {I : Type} (aa : I -> vec3 R) (i : I) :
  axis_angle_to_matrix (fun k => vneg (aa k)) i
  = transpose (axis_angle_to_matrix aa i).
Proof.
  unfold axis_angle_to_matrix, AxisAngleToMatrix.result,
    AxisAngleToMatrix.small_angle_mask, AxisAngleToMatrix.R,
    AxisAngleToMatrix.Id, AxisAngleToMatrix.K, AxisAngleToMatrix.sin_angle,
    AxisAngleToMatrix.cos_angle, AxisAngleToMatrix.axis, AxisAngleToMatrix.angle.
  rewrite norm3_vneg.
  set (n := norm3 (aa i)).
  destruct (ltb n (lit 1e-3)); [reflexivity|].
  destruct (aa i) as [x y z]. unfold vneg.
  apply mat3_eq; block_ops; unfold Rdiv; ring.
Qed.

(** X2: transposing the block negates the recovered vector. *)
Theorem matrix_to_axis_angle_transpose {I : Type} (m : I -> mat3 R) (i : I) :
  matrix_to_axis_angle (fun k => transpose (m k)) i
  = vneg (matrix_to_axis_angle m i).
Proof.
  unfold matrix_to_axis_angle, MatrixToAxisAngle.result,
    MatrixToAxisAngle.small_angle_mask, MatrixToAxisAngle.axis_angle,
    MatrixToAxisAngle.axis_unit, MatrixToAxisAngle.axis_norm,
    MatrixToAxisAngle.angle, MatrixToAxisAngle.acos_arg,
    MatrixToAxisAngle.trace.
  assert (Hax : MatrixToAxisAngle.axis (fun k => transpose (m k)) i
                = vneg (MatrixToAxisAngle.axis m i)).
  { unfold MatrixToAxisAngle.axis, vneg. destruct (m i). block_ops.
    f_equal; ring. }
  rewrite Hax, norm3_vneg.
  set (n := norm3 (MatrixToAxisAngle.axis m i)).
  destruct (MatrixToAxisAngle.axis m i) as [x y z].
  destruct (m i) as [a00 a01 a02 a10 a11 a12 a20 a21 a22].
  cbn [transpose m00 m11 m22].
  set (t := acosv _).
  destruct (ltb t (lit 1e-3)); unfold vneg; block_ops; f_equal;
    unfold Rdiv; ring.
Qed.

(** The squared entries of each column of the Rodrigues block add up to at
    most 1 as soon as the defect [2 t - s s - t t |a|^2] is not negative. *)
Lemma rodrigues_columns (a : vec3 R) (s t : R) :
  0 <= 2 * t - s * s - t * t * sq_norm a ->
  m00 (rodrigues a s t) * m00 (rodrigues a s t)
    + m10 (rodrigues a s t) * m10 (rodrigues a s t)
    + m20 (rodrigues a s t) * m20 (rodrigues a s t) <= 1 /\
  m01 (rodrigues a s t) * m01 (rodrigues a s t)
    + m11 (rodrigues a s t) * m11 (rodrigues a s t)
    + m21 (rodrigues a s t) * m21 (rodrigues a s t) <= 1 /\
  m02 (rodrigues a s t) * m02 (rodrigues a s t)
    + m12 (rodrigues a s t) * m12 (rodrigues a s t)
    + m22 (rodrigues a s t) * m22 (rodrigues a s t) <= 1.
Proof.
  intros He. pose proof (rodrigues_gram a s t) as Hg.
  set (e := 2 * t - s * s - t * t * sq_norm a) in *.
  assert (H00 := f_equal (@m00 R) Hg).
  assert (H11 := f_equal (@m11 R) Hg).
  assert (H22 := f_equal (@m22 R) Hg).
  clear Hg. destruct a as [a0 a1 a2].
  block_ops_in H00. block_ops_in H11. block_ops_in H22. block_ops.
  assert (0 <= e * (a1 * a1 + a2 * a2)) by (apply Rmult_le_pos; nra).
  assert (0 <= e * (a0 * a0 + a2 * a2)) by (apply Rmult_le_pos; nra).
  assert (0 <= e * (a0 * a0 + a1 * a1)) by (apply Rmult_le_pos; nra).
  repeat split; nra.
Qed.

Lemma sq_le_1 (x r : R) : x * x + r <= 1 -> 0 <= r -> -1 <= x <= 1.
Proof. intros. split; nra. Qed.

Lemma rodrigues_entries (a : vec3 R) (s t : R) :
  0 <= 2 * t - s * s - t * t * sq_norm a ->
  mall (fun e => -1 <= e <= 1) (rodrigues a s t).
Proof.
  intros He. destruct (rodrigues_columns He) as [C0 [C1 C2]].
  destruct (rodrigues a s t) as [r00 r01 r02 r10 r11 r12 r20 r21 r22].
  unfold mall; cbn [m00 m01 m02 m10 m11 m12 m20 m21 m22] in *.
  repeat split; nra.
Qed.

Lemma eye3_entries : mall (fun e => -1 <= e <= 1) (@eye3 R _).
Proof. unfold mall. block_ops. repeat split; lra. Qed.

Lemma R_defect_nonneg {I : Type} (aa : I -> vec3 R) (i : I) :
  0 <= 2 * (1 - cos (AxisAngleToMatrix.angle aa i))
       - sin (AxisAngleToMatrix.angle aa i) * sin (AxisAngleToMatrix.angle aa i)
       - (1 - cos (AxisAngleToMatrix.angle aa i))
         * (1 - cos (AxisAngleToMatrix.angle aa i))
         * sq_norm (AxisAngleToMatrix.axis aa i).
Proof.
  destruct (R_defect aa i) as [[He0 _] [_ [Hd _]]]. rewrite Hd. exact He0.
Qed.

(** In exact real arithmetic every entry of every block returned by [axis_angle_to_matrix] lies in
    [[-1, 1]], for every real axis-angle vector. *)
Theorem axis_angle_to_matrix_entries {I : Type} (aa : I -> vec3 R) (i : I) :
  mall (fun e => -1 <= e <= 1) (axis_angle_to_matrix aa i).
Proof.
  destruct (axis_angle_to_matrix_cases aa i) as [[_ ->]|[_ ->]].
  - apply eye3_entries.
  - rewrite R_is_rodrigues. apply rodrigues_entries. apply R_defect_nonneg.
Qed.

(** * Further properties of [PoseLoss] *)

(** In exact real arithmetic, with a 0/1 mask every entry of the loss lies in [[0, 2]]: the blocks
    compared have entries in [[-1, 1]]. *)
Theorem PoseLoss_bounded (pose_out pose_gt pose_valid : nat -> nat -> R)
    (b j : nat) :
  pose_valid b j = 0 \/ pose_valid b j = 1 ->
  mall (fun e => 0 <= e <= 2) (PoseLoss.forward pose_out pose_gt pose_valid b j).
Proof.
  intros Hm.
  unfold PoseLoss.forward, PoseLoss.rot_out, PoseLoss.rot_gt.
  assert (Hblock : forall x : nat -> nat -> R,
            mall (fun e => -1 <= e <= 1)
                 (axis_angle_to_matrix (PoseLoss.view3 x) (b, j))).
  { intros x.
    destruct (axis_angle_to_matrix_cases (PoseLoss.view3 x) (b, j)) as [[_ ->]|[_ ->]].
    - apply eye3_entries.
    - rewrite R_is_rodrigues. apply rodrigues_entries. apply R_defect_nonneg. }
  pose proof (Hblock pose_out) as Ho. pose proof (Hblock pose_gt) as Hg. clear Hblock.
  destruct (axis_angle_to_matrix (PoseLoss.view3 pose_out) (b, j)).
  destruct (axis_angle_to_matrix (PoseLoss.view3 pose_gt) (b, j)).
  unfold mall in *. cbn [m00 m01 m02 m10 m11 m12 m20 m21 m22] in *.
  block_ops.
  assert (Hent : forall x y, -1 <= x <= 1 -> -1 <= y <= 1 ->
                             0 <= Rabs (x - y) * pose_valid b j <= 2).
  { intros x y Hx Hy. pose proof (Rabs_pos (x - y)).
    assert (Rabs (x - y) <= 2) by (apply Rabs_le; lra).
    destruct Hm as [-> | ->]; lra. }
  repeat split; apply Hent; tauto.
Qed.

(** X5: swapping prediction and target leaves both losses unchanged. *)
Theorem losses_symmetric :
  (forall (pose_out pose_gt pose_valid : nat -> nat -> R) (b j : nat),
     PoseLoss.forward pose_out pose_gt pose_valid b j
     = PoseLoss.forward pose_gt pose_out pose_valid b j) /\
  (forall (coord_out coord_gt valid : nat -> nat -> nat -> R) (is_3D : nat -> Z)
          (b j c : nat),
     CoordLoss.forward coord_out coord_gt valid is_3D b j c
     = CoordLoss.forward coord_gt coord_out valid is_3D b j c).
Proof.
  split.
  - intros. unfold PoseLoss.forward, PoseLoss.rot_out, PoseLoss.rot_gt.
    destruct (axis_angle_to_matrix (PoseLoss.view3 pose_out) (b, j)).
    destruct (axis_angle_to_matrix (PoseLoss.view3 pose_gt) (b, j)).
    block_ops. f_equal; rewrite Rabs_minus_sym; reflexivity.
  - intros. unfold CoordLoss.forward, CoordLoss.loss_z, CoordLoss.loss.
    scalar_ops.
    destruct (c <? 2)%nat; rewrite Rabs_minus_sym; reflexivity.
Qed.

(** X6: two poses of a joint that both have an angle below 1e-3 are not told
    apart: both become the identity block and the loss of the joint is zero,
    whatever the mask. *)
Theorem PoseLoss_small_angles (pose_out pose_gt pose_valid : nat -> nat -> R)
    (b j : nat) :
  norm3 (PoseLoss.view3 pose_out (b, j)) < 1e-3 ->
  norm3 (PoseLoss.view3 pose_gt (b, j)) < 1e-3 ->
  PoseLoss.forward pose_out pose_gt pose_valid b j = zeros33.
Proof.
  intros Ho Hg.
  unfold PoseLoss.forward, PoseLoss.rot_out, PoseLoss.rot_gt.
  destruct (axis_angle_to_matrix_cases (PoseLoss.view3 pose_out) (b, j))
    as [[_ ->]|[Hge _]];
    [|unfold AxisAngleToMatrix.angle in Hge; lra].
  destruct (axis_angle_to_matrix_cases (PoseLoss.view3 pose_gt) (b, j))
    as [[_ ->]|[Hge _]];
    [|unfold AxisAngleToMatrix.angle in Hge; lra].
  block_ops. rewrite !Rminus_diag, Rabs_R0, !Rmult_0_l. reflexivity.
Qed.

Lemma small_norm (x : R) : 0 <= x -> x * x * 3 < 1e-6 -> norm3 (V3 x x x) < 1e-3.
Proof.
  intros Hx Hs. rewrite norm3_sqrt. block_ops.
  replace 1e-3 with (sqrt (1e-3 * 1e-3)) by (apply sqrt_square; lra).
  apply sqrt_lt_1_alt. split; nra.
Qed.

(** A pose of 1e-4 per coordinate against the zero pose, mask 1. *)
Lemma PoseLoss_small_angles_witness :
  PoseLoss.forward (fun _ _ => 1e-4) (fun _ _ => 0) (fun _ _ => 1) 0 0 = zeros33.
Proof.
  apply (PoseLoss_small_angles (fun _ _ => 1e-4) (fun _ _ => 0) (fun _ _ => 1) 0 0).
  - apply small_norm; lra.
  - apply small_norm; lra.
Defined.

(** * Further properties of [matrix_to_axis_angle] *)

Lemma norm3_zero : @norm3 R _ (V3 0 0 0) = 0.
Proof.
  rewrite norm3_sqrt. block_ops.
  replace (0 * 0 + 0 * 0 + 0 * 0) with 0 by ring. apply sqrt_0.
Qed.

Lemma axis_angle_of_symmetric {I : Type} (m : I -> mat3 R) (i : I) :
  symmetric (m i) -> MatrixToAxisAngle.axis_angle m i = zeros3.
Proof.
  intros [H01 [H02 H12]].
  unfold MatrixToAxisAngle.axis_angle, MatrixToAxisAngle.axis_unit,
    MatrixToAxisAngle.axis_norm.
  assert (Hax : MatrixToAxisAngle.axis m i = V3 0 0 0).
  { unfold MatrixToAxisAngle.axis. scalar_ops.
    rewrite H01, H02, H12. f_equal; ring. }
  rewrite Hax, norm3_zero. block_ops. f_equal; unfold Rdiv; ring.
Qed.

(** X8: a symmetric block has no skew part, so the axis is the zero vector and
    so is the result, whatever the angle is: a half turn is returned as no
    rotation. *)
Theorem matrix_to_axis_angle_symmetric {I : Type} (m : I -> mat3 R) (i : I) :
  symmetric (m i) -> matrix_to_axis_angle m i = zeros3.
Proof.
  intros Hs.
  destruct (matrix_to_axis_angle_cases m i) as [[_ ->]|[_ ->]]; [reflexivity|].
  apply axis_angle_of_symmetric. exact Hs.
Qed.

(** The half turn about x. *)
Lemma matrix_to_axis_angle_symmetric_witness :
  matrix_to_axis_angle (fun _ : unit => M3 1 0 0 0 (-1) 0 0 0 (-1)) tt = zeros3.
Proof.
  apply (matrix_to_axis_angle_symmetric
           (fun _ : unit => M3 1 0 0 0 (-1) 0 0 0 (-1)) tt).
  repeat split; reflexivity.
Defined.

(** X10: an axis-angle vector of magnitude below 1e-3 does not survive the round
    trip: its block is the identity and the zero vector comes back. *)
Theorem round_trip_small_angle {I : Type} (aa : I -> vec3 R) (i : I) :
  norm3 (aa i) < 1e-3 ->
  matrix_to_axis_angle (axis_angle_to_matrix aa) i = zeros3.
Proof.
  intros Hn.
  change (norm3 (aa i)) with (AxisAngleToMatrix.angle aa i) in Hn.
  destruct (matrix_to_axis_angle_cases (axis_angle_to_matrix aa) i)
    as [[_ ->]|[_ ->]]; [reflexivity|].
  apply axis_angle_of_symmetric.
  destruct (axis_angle_to_matrix_cases aa i) as [[_ ->]|[Hge _]]; [|lra].
  repeat split; reflexivity.
Qed.

Lemma round_trip_small_angle_witness :
  matrix_to_axis_angle
    (axis_angle_to_matrix (fun _ : unit => V3 1e-4 1e-4 1e-4)) tt = zeros3.
Proof.
  apply (round_trip_small_angle (fun _ : unit => V3 1e-4 1e-4 1e-4) tt).
  apply small_norm; lra.
Defined.

Lemma Rltb_true (x y : R) : x < y -> Rltb x y = true.
Proof. intros H. unfold Rltb. destruct (Rlt_dec x y); [reflexivity|contradiction]. Qed.

(** X12: when the diagonal is numeric with a trace of at least 3, the clamp hands
    1 to [acos], the angle is 0 and the zero vector is selected: entries off
    the diagonal are never looked at, NaN ones included. *)
Theorem matrix_to_axis_angle_trace_ge_3 {I : Type} (m : I -> mat3 fval) (i : I)
    (d0 d1 d2 : R) :
  m00 (m i) = Fin d0 -> m11 (m i) = Fin d1 -> m22 (m i) = Fin d2 ->
  3 <= d0 + d1 + d2 ->
  matrix_to_axis_angle m i = zeros3.
Proof.
  intros H0 H1 H2 Htr.
  unfold matrix_to_axis_angle, MatrixToAxisAngle.result,
    MatrixToAxisAngle.small_angle_mask, MatrixToAxisAngle.angle,
    MatrixToAxisAngle.acos_arg, MatrixToAxisAngle.trace.
  rewrite H0, H1, H2.
  change (clamp (div (sub (add (add (Fin d0) (Fin d1)) (Fin d2)) (lit 1)) (lit 2))
                (lit (-1)) (lit 1))
    with (fclamp (fdiv (Fin (d0 + d1 + d2 - 1)) (Fin 2)) (Fin (-1)) (Fin 1)).
  rewrite fdiv_nonzero by lra. cbn [fclamp].
  assert (Hc : Rmin (Rmax ((d0 + d1 + d2 - 1) / 2) (-1)) 1 = 1).
  { unfold Rmin, Rmax.
    destruct (Rle_dec ((d0 + d1 + d2 - 1) / 2) (-1)); [lra|].
    destruct (Rle_dec _ 1); lra. }
  rewrite Hc.
  change (@acosv fval _ (Fin 1)) with (facos (Fin 1)).
  unfold facos.
  destruct (Rle_dec (-1) 1); [|lra]. destruct (Rle_dec 1 1); [|lra].
  rewrite acos_1.
  change (ltb (Fin 0) (lit 1e-3)) with (Rltb 0 1e-3).
  rewrite Rltb_true by lra. reflexivity.
Qed.

(** The identity diagonal with NaN everywhere else. *)
Lemma matrix_to_axis_angle_trace_ge_3_witness :
  matrix_to_axis_angle
    (fun _ : unit => M3 (Fin 1) NaN NaN NaN (Fin 1) NaN NaN NaN (Fin 1)) tt
  = zeros3.
Proof.
  apply (matrix_to_axis_angle_trace_ge_3
           (fun _ : unit => M3 (Fin 1) NaN NaN NaN (Fin 1) NaN NaN NaN (Fin 1))
           tt (d0 := 1) (d1 := 1) (d2 := 1)); try reflexivity.
  lra.
Defined.

(** * Further properties of [CoordLoss] *)



(** X14: neither [valid] nor [is_3D] suppresses a NaN: a NaN coordinate gives a
    NaN loss entry, also where both are 0. *)
Theorem CoordLoss_nan (coord_out coord_gt valid : nat -> nat -> nat -> fval)
    (is_3D : nat -> Z) (b j c : nat) :
  coord_out b j c = NaN \/ coord_gt b j c = NaN ->
  CoordLoss.forward coord_out coord_gt valid is_3D b j c = NaN.
Proof.
  intros Hn.
  assert (Hl : CoordLoss.loss coord_out coord_gt valid b j c = NaN).
  { unfold CoordLoss.loss.
    destruct Hn as [E|E]; rewrite E; [reflexivity|].
    destruct (coord_out b j c); reflexivity. }
  unfold CoordLoss.forward, CoordLoss.loss_z.
  destruct (Nat.ltb_spec c 2) as [Hlt|Hge]; [exact Hl|].
  replace (2 + (c - 2))%nat with c by lia. rewrite Hl. reflexivity.
Qed.

Lemma CoordLoss_nan_witness :
  CoordLoss.forward (fun _ _ _ => NaN) (fun _ _ _ => Fin 0) (fun _ _ _ => Fin 0)
                    (fun _ => 0%Z) 0 0 2 = NaN.
Proof.
  apply (CoordLoss_nan (fun _ _ _ => NaN) (fun _ _ _ => Fin 0)
           (fun _ _ _ => Fin 0) (fun _ => 0%Z) 0 0 2).
  left; reflexivity.
Defined.

(** * The MANO tables *)

(** X15: [tuple.index]: the position returned holds the item and no earlier
    position does; no position is returned exactly when the item is absent
    (where Python raises). *)
Theorem index_first (x : string) (l : list string) :
  match MANO.index x l with
  | Some i => nth_error l i = Some x /\
              forall k : nat, (k < i)%nat -> nth_error l k <> Some x
  | None => ~ In x l
  end.
Proof.
  induction l as [|y l IH]; cbn [MANO.index].
  - intros [].
  - destruct (String.eqb_spec y x) as [->|Hne].
    + split; [reflexivity|]. intros k Hk. lia.
    + destruct (MANO.index x l) as [i|]; cbn [option_map].
      * destruct IH as [Hi Hfirst]. split; [exact Hi|].
        intros [|k] Hk; cbn [nth_error].
        -- intros E. injection E as E. contradiction.
        -- apply Hfirst. lia.
      * intros [E|Hin]; [contradiction|]. exact (IH Hin).
Qed.

(** X16: the single-hand skeleton is a tree on the 21 joints, rooted at the
    wrist: the bones list the joints 1..20 once each as a child, in order,
    and the parent of a joint is the wrist or the joint just before it. *)
Theorem sh_skeleton_tree :
  map snd MANO.sh_skeleton = seq 1 (MANO.sh_joint_num - 1) /\
  Forall (fun bone => fst bone = 0%nat \/ S (fst bone) = snd bone)
         MANO.sh_skeleton /\
  Forall (fun bone => (fst bone < snd bone < MANO.sh_joint_num)%nat)
         MANO.sh_skeleton /\
  MANO.sh_root_joint_idx = Some 0%nat.
Proof.
  split; [reflexivity|]. split; [|split; [|reflexivity]].
  - unfold MANO.sh_skeleton.
    repeat (apply Forall_cons; [cbn; auto|]). apply Forall_nil.
  - unfold MANO.sh_skeleton, MANO.sh_joint_num.
    repeat (apply Forall_cons; [cbn; lia|]). apply Forall_nil.
Qed.

(** X17: the two-hand names are the single-hand names, prefixed with [R_] and
    then with [L_]; no name occurs twice, and each table has as many names
    as its joint number says. *)
Theorem joints_name_tables :
  MANO.th_joints_name
  = map (String.append "R_") MANO.sh_joints_name
    ++ map (String.append "L_") MANO.sh_joints_name /\
  NoDup MANO.th_joints_name /\
  List.length MANO.sh_joints_name = MANO.sh_joint_num /\
  List.length MANO.orig_joints_name = MANO.orig_joint_num /\
  MANO.th_joint_num = (2 * MANO.sh_joint_num)%nat.
Proof.
  split; [reflexivity|]. split; [|repeat split; reflexivity].
  unfold MANO.th_joints_name.
  repeat (apply NoDup_cons;
          [cbn [In]; intros H;
           repeat (destruct H as [H|H]; [discriminate H|]); exact H|]).
  apply NoDup_nil.
Qed.

(** * The file name of the demo *)

Lemma split_not_nil (sep : ascii) (s : string) : Demo.split sep s <> [].
Proof.
  destruct s as [|c s]; cbn [Demo.split]; [discriminate|].
  destruct (Ascii.eqb c sep); [discriminate|].
  destruct (Demo.split sep s); discriminate.
Qed.

Lemma split_app (sep : ascii) (d b : string) :
  Demo.split sep (d ++ String sep b) = Demo.split sep d ++ Demo.split sep b.
Proof.
  induction d as [|c d IH]; cbn [String.append Demo.split].
  - rewrite Ascii.eqb_refl. reflexivity.
  - destruct (Ascii.eqb c sep).
    + rewrite IH. reflexivity.
    + rewrite IH. pose proof (split_not_nil sep d) as Hd.
      destruct (Demo.split sep d); [contradiction|reflexivity].
Qed.

Lemma split_no_slash (b : string) : no_slash b -> Demo.split "/" b = [b].
Proof.
  induction b as [|c b IH]; cbn [no_slash Demo.split]; [reflexivity|].
  intros [Hc Hb]. destruct (Ascii.eqb_spec c "/"); [contradiction|].
  rewrite (IH Hb). reflexivity.
Qed.

Lemma last_item_app {A : Type} (l1 l2 : list A) :
  l2 <> [] -> Demo.last_item (l1 ++ l2) = Demo.last_item l2.
Proof.
  intros H2. induction l1 as [|x l1 IH]; [reflexivity|].
  cbn [app Demo.last_item]. rewrite IH.
  destruct (l1 ++ l2) eqn:E; [|reflexivity].
  apply app_eq_nil in E. destruct E as [_ E]. contradiction.
Qed.

Lemma last_component (d b : string) :
  no_slash b -> Demo.last_item (Demo.split "/" (d ++ String "/" b)) = Some b.
Proof.
  intros Hb. rewrite split_app, last_item_app by apply split_not_nil.
  rewrite (@split_no_slash b Hb). reflexivity.
Qed.

Lemma length_app (a b : string) :
  String.length (a ++ b) = (String.length a + String.length b)%nat.
Proof. induction a; cbn; [reflexivity|]. rewrite IHa. reflexivity. Qed.

Lemma substring_app (a b : string) : substring 0 (String.length a) (a ++ b) = a.
Proof.
  induction a as [|c a IH]; cbn.
  - destruct b; reflexivity.
  - rewrite IH. reflexivity.
Qed.

Lemma drop_last4_app (base ext : string) :
  String.length ext = 4%nat -> Demo.drop_last4 (base ++ ext) = base.
Proof.
  intros He. unfold Demo.drop_last4. rewrite length_app, He.
  replace (String.length base + 4 - 4)%nat with (String.length base) by lia.
  apply substring_app.
Qed.

Lemma no_slash_app (a b : string) : no_slash (a ++ b) <-> no_slash a /\ no_slash b.
Proof.
  induction a as [|c a IH]; cbn [String.append no_slash]; tauto.
Qed.

(** X18: for an image whose extension has four characters with the dot (".jpg",
    ".png"), the name is the last path component without the extension,
    with or without directories before it. *)
Theorem file_name_strips_extension (dir base ext : string) :
  no_slash (base ++ ext) -> String.length ext = 4%nat ->
  Demo.file_name (dir ++ String "/" (base ++ ext)) = Some base /\
  Demo.file_name (base ++ ext) = Some base.
Proof.
  intros Hn He. unfold Demo.file_name. split.
  - rewrite (@last_component dir (base ++ ext) Hn). cbn [option_map].
    rewrite (@drop_last4_app base ext He). reflexivity.
  - rewrite (@split_no_slash (base ++ ext) Hn). cbn [Demo.last_item option_map].
    rewrite (@drop_last4_app base ext He). reflexivity.
Qed.

Lemma file_name_strips_extension_witness :
  Demo.file_name "./images/hand_01.jpg" = Some "hand_01"%string /\
  Demo.file_name "hand_01.jpg" = Some "hand_01"%string.
Proof.
  apply (file_name_strips_extension "./images" "hand_01" ".jpg").
  - cbn. repeat split; discriminate.
  - reflexivity.
Defined.

(** X19: for a ".jpeg" image, which the script also collects, four characters
    are cut all the same: the name keeps the dot of the extension. *)
Theorem file_name_jpeg (dir base : string) :
  no_slash base ->
  Demo.file_name (dir ++ String "/" (base ++ ".jpeg")) = Some (base ++ ".")%string.
Proof.
  intros Hn. unfold Demo.file_name.
  assert (Hn' : no_slash (base ++ ".jpeg")).
  { apply no_slash_app. split; [exact Hn|]. cbn. repeat split; discriminate. }
  rewrite (@last_component dir (base ++ ".jpeg") Hn'). cbn [option_map].
  replace (base ++ ".jpeg")%string with ((base ++ ".") ++ "jpeg")%string.
  - rewrite drop_last4_app by reflexivity. reflexivity.
  - clear. induction base as [|c b IH]; cbn; [reflexivity|]. rewrite IH. reflexivity.
Qed.

Lemma file_name_jpeg_witness :
  Demo.file_name "./images/hand_01.jpeg" = Some "hand_01."%string.
Proof.
  apply (file_name_jpeg "./images" "hand_01").
  cbn. repeat split; discriminate.
Defined.

Lemma split_pieces (s : string) : Forall no_slash (Demo.split "/" s).
Proof.
  induction s as [|c s IH]; cbn [Demo.split].
  - repeat constructor.
  - destruct (Ascii.eqb_spec c "/") as [_|Hc].
    + constructor; [exact I|exact IH].
    + destruct (Demo.split "/" s) as [|w ws].
      * repeat constructor. exact Hc.
      * inversion IH; subst. constructor; [|assumption].
        split; assumption.
Qed.

Lemma last_item_Forall {A : Type} (P : A -> Prop) (l : list A) :
  l <> [] -> Forall P l -> exists x : A, Demo.last_item l = Some x /\ P x.
Proof.
  induction l as [|x l IH]; [contradiction|].
  intros _ HP. inversion HP; subst.
  destruct l as [|y l]; [exists x; split; [reflexivity|assumption]|].
  apply IH; [discriminate|assumption].
Qed.

Lemma substring_prefix (n : nat) (s : string) :
  (n <= String.length s)%nat ->
  String.length (substring 0 n s) = n /\ (no_slash s -> no_slash (substring 0 n s)).
Proof.
  revert n. induction s as [|c s IH]; intros [|n] Hn; cbn in *;
    try (split; [reflexivity|tauto]); try lia.
  destruct (IH n ltac:(lia)) as [Hl Hs]. split; [lia|tauto].
Qed.

(** X20: the name is always defined, holds no path separator, and is four
    characters shorter than the last path component (empty when that has
    fewer than four). *)
Theorem file_name_total (img_path : string) :
  exists last name : string,
    Demo.last_item (Demo.split "/" img_path) = Some last /\
    Demo.file_name img_path = Some name /\
    no_slash name /\
    String.length name = (String.length last - 4)%nat.
Proof.
  destruct (last_item_Forall (@split_not_nil "/" img_path) (split_pieces img_path))
    as [last [Hl Hn]].
  exists last, (Demo.drop_last4 last). unfold Demo.file_name. rewrite Hl.
  split; [reflexivity|]. split; [reflexivity|].
  unfold Demo.drop_last4.
  destruct (@substring_prefix (String.length last - 4) last ltac:(lia)) as [Hlen Hs].
  split; [exact (Hs Hn)|exact Hlen].
Qed.

(** * Drawing of keypoints *)

Lemma item_defined {A : Type} (a : list A) (i : Z) :
  Vis.item a i <> None <-> index_ok (List.length a) i.
Proof.
  unfold Vis.item, index_ok.
  destruct (Z.leb_spec 0 i) as [Hpos|Hneg].
  - rewrite nth_error_Some. lia.
  - destruct (Z.leb_spec (- Z.of_nat (List.length a)) i) as [Hlo|Hlo].
    + rewrite nth_error_Some. lia.
    + split; [congruence|lia].
Qed.

Lemma for_each_all {C : Type} (P : Vis.call C -> Prop) (k : nat)
    (body : nat -> option (list (Vis.call C))) (range : list nat) :
  (forall l, In l range ->
     exists cs, body l = Some cs /\ List.length cs = k /\ Forall P cs) ->
  exists cs, Vis.for_each body range = Some cs /\
             List.length cs = (k * List.length range)%nat /\ Forall P cs.
Proof.
  induction range as [|l range IH]; intros Hb; cbn [Vis.for_each].
  - exists []. repeat split; [cbn; lia|constructor].
  - destruct (Hb l (or_introl eq_refl)) as [cs [-> [Hk HP]]].
    destruct IH as [cs' [-> [Hk' HP']]].
    { intros l' Hl'. apply Hb. right. exact Hl'. }
    exists (cs ++ cs'). cbn [option_map]. split; [reflexivity|]. split.
    + rewrite List.length_app. cbn [List.length]. lia.
    + apply Forall_app. split; assumption.
Qed.

Lemma for_each_defined {C : Type} (body : nat -> option (list (Vis.call C)))
    (range : list nat) (cs : list (Vis.call C)) :
  Vis.for_each body range = Some cs -> forall l, In l range -> body l <> None.
Proof.
  revert cs. induction range as [|l range IH]; intros cs Hcs l' Hin;
    [contradiction|].
  cbn [Vis.for_each] in Hcs. destruct Hin as [E|Hin].
  - subst l'. destruct (body l); [discriminate|discriminate Hcs].
  - destruct (body l); [|discriminate].
    destruct (Vis.for_each body range) as [cs'|]; [|discriminate].
    exact (IH cs' eq_refl l' Hin).
Qed.

Lemma nth_error_repeat_lt {A : Type} (x : A) (n l : nat) :
  (l < n)%nat -> nth_error (repeat x n) l = Some x.
Proof.
  revert l. induction n as [|n IH]; intros [|l] Hl; cbn; try lia; [reflexivity|].
  apply IH. lia.
Qed.

Section SkeletonCalls.
Variable astype_int32 : R -> Z.
Variable cmap : R -> R * R * R * R.
Variable C : Type.
Variable kps : list (R * R).
Variable kps_lines : list (Z * Z).
Variable color : option C.

Lemma point_defined (i : Z) :
  Vis.point astype_int32 kps i <> None <-> index_ok (List.length kps) i.
Proof.
  rewrite <- item_defined. unfold Vis.point.
  destruct (Vis.item kps i); cbn [option_map]; split; congruence.
Qed.

Lemma skeleton_body_ok (l : nat) (bone : Z * Z) :
  nth_error kps_lines l = Some bone ->
  bone_ok (List.length kps) bone ->
  exists cs,
    Vis.skeleton_body astype_int32 kps kps_lines
      (repeat color (List.length kps_lines)) l = Some cs /\
    List.length cs = 3%nat /\ Forall (fun c => Vis.call_color c = color) cs.
Proof.
  intros Hl [H1 H2]. unfold Vis.skeleton_body. rewrite Hl.
  destruct bone as [i1 i2]. cbn [fst snd] in *.
  apply point_defined in H1. apply point_defined in H2.
  destruct (Vis.point astype_int32 kps i1) as [p1|]; [|contradiction].
  destruct (Vis.point astype_int32 kps i2) as [p2|]; [|contradiction].
  rewrite nth_error_repeat_lt by (apply nth_error_Some; congruence).
  eexists. split; [reflexivity|]. split; [reflexivity|].
  repeat constructor.
Qed.

Lemma skeleton_body_defined (l : nat) (bone : Z * Z) (colors : list (option C)) :
  nth_error kps_lines l = Some bone ->
  Vis.skeleton_body astype_int32 kps kps_lines colors l <> None ->
  bone_ok (List.length kps) bone.
Proof.
  intros Hl. unfold Vis.skeleton_body. rewrite Hl.
  destruct bone as [i1 i2]. intros Hb. split; cbn [fst snd];
    apply point_defined; intros E; rewrite E in Hb.
  - contradiction.
  - destruct (Vis.point astype_int32 kps i1); contradiction.
Qed.

Lemma skeleton_calls_ok :
  Forall (bone_ok (List.length kps)) kps_lines ->
  exists calls,
    Vis.vis_keypoints_with_skeleton_calls astype_int32 cmap kps kps_lines color
    = Some calls /\
    List.length calls = (3 * List.length kps_lines)%nat /\
    Forall (fun c => Vis.call_color c = color) calls.
Proof.
  intros Hall. unfold Vis.vis_keypoints_with_skeleton_calls. cbv zeta.
  replace (3 * List.length kps_lines)%nat
    with (3 * List.length (seq 0 (List.length kps_lines)))%nat
    by (rewrite length_seq; reflexivity).
  apply for_each_all. intros l Hl. apply in_seq in Hl.
  destruct (nth_error kps_lines l) as [bone|] eqn:Hb.
  - apply (@skeleton_body_ok l bone Hb).
    rewrite Forall_forall in Hall. apply Hall.
    apply (nth_error_In _ _ Hb).
  - apply nth_error_None in Hb. lia.
Qed.

(** X21: [vis_keypoints_with_skeleton] raises exactly when a bone names a row
    that [kps] does not have.  Otherwise it makes three calls a bone (the
    line and the two end circles), and each of them is given the argument
    [color] itself, None included: the colours of the colour map are never
    used. *)
Theorem vis_keypoints_with_skeleton_calls_spec :
  match Vis.vis_keypoints_with_skeleton_calls astype_int32 cmap kps kps_lines color with
  | Some calls =>
      Forall (bone_ok (List.length kps)) kps_lines /\
      List.length calls = (3 * List.length kps_lines)%nat /\
      Forall (fun c => Vis.call_color c = color) calls
  | None => ~ Forall (bone_ok (List.length kps)) kps_lines
  end.
Proof.
  pose proof skeleton_calls_ok as Hok.
  destruct (Vis.vis_keypoints_with_skeleton_calls astype_int32 cmap kps kps_lines color)
    as [cs|] eqn:Hcs.
  - assert (Hall : Forall (bone_ok (List.length kps)) kps_lines).
    { apply Forall_forall. intros bone Hin.
      destruct (In_nth_error _ _ Hin) as [l Hl].
      apply (@skeleton_body_defined l bone (repeat color (List.length kps_lines)) Hl).
      unfold Vis.vis_keypoints_with_skeleton_calls in Hcs. cbv zeta in Hcs.
      apply (for_each_defined _ _ Hcs). apply in_seq.
      assert (l < List.length kps_lines)%nat by (apply nth_error_Some; congruence).
      lia. }
    split; [exact Hall|].
    destruct (Hok Hall) as [cs' [E [Hlen Hcol]]].
    injection E as <-. split; assumption.
  - intros Hall. destruct (Hok Hall) as [cs' [E _]]. discriminate E.
Qed.
End SkeletonCalls.

Lemma sh_skeleton_in_range : Forall (bone_ok MANO.sh_joint_num) Demo.sh_skeleton.
Proof.
  unfold Demo.sh_skeleton, MANO.sh_skeleton, MANO.sh_joint_num. cbn [map fst snd].
  repeat (apply Forall_cons; [unfold bone_ok, index_ok; cbn; lia|]).
  apply Forall_nil.
Qed.

(** X22: in the demo, a hand with the 21 joints of the single-hand table is
    drawn without an index error: 60 calls, all in the colour of the hand.
    The depth column of the joints plays no part: any other joints with the
    same first two columns give the same calls. *)
Theorem demo_skeleton_calls (astype_int32 : R -> Z) (cmap : R -> R * R * R * R)
    (bb2img_trans : vec3 R * vec3 R) (joint_img : list (vec3 R)) (h : string) :
  List.length joint_img = MANO.sh_joint_num ->
  exists calls,
    Demo.skeleton_calls astype_int32 cmap bb2img_trans joint_img h = Some calls /\
    List.length calls = 60%nat /\
    Forall (fun c => Vis.call_color c = Some (Demo.hand_color h)) calls /\
    forall joint_img' : list (vec3 R),
      map (fun v => (v0 v, v1 v)) joint_img' = map (fun v => (v0 v, v1 v)) joint_img ->
      Demo.skeleton_calls astype_int32 cmap bb2img_trans joint_img' h = Some calls.
Proof.
  intros Hlen. unfold Demo.skeleton_calls. cbv zeta.
  set (kps := map (Demo.dot_row bb2img_trans) (map Demo.xy1 joint_img)).
  assert (Hk : List.length kps = MANO.sh_joint_num).
  { unfold kps. rewrite !length_map. exact Hlen. }
  pose proof sh_skeleton_in_range as Hr. rewrite <- Hk in Hr.
  destruct (skeleton_calls_ok astype_int32 cmap kps (Some (Demo.hand_color h)) Hr)
    as [calls [E [Hl Hc]]].
  exists calls. split; [exact E|]. split; [rewrite Hl; reflexivity|].
  split; [exact Hc|].
  intros joint_img' Hxy.
  assert (Hsame : map Demo.xy1 joint_img' = map Demo.xy1 joint_img).
  { transitivity (map (fun p : R * R => V3 (fst p) (snd p) 1)
                      (map (fun v => (v0 v, v1 v)) joint_img')).
    - rewrite map_map. reflexivity.
    - rewrite Hxy, map_map. reflexivity. }
  rewrite Hsame. exact E.
Qed.

(** A hand of 21 joints, all at the origin. *)
Lemma demo_skeleton_calls_witness :
  exists calls,
    Demo.skeleton_calls (fun _ => 0%Z) (fun _ => (0, 0, 0, 0))
      (V3 1 0 0, V3 0 1 0) (repeat (V3 0 0 0) 21) "left" = Some calls /\
    List.length calls = 60%nat.
Proof.
  destruct (demo_skeleton_calls (fun _ => 0%Z) (fun _ => (0, 0, 0, 0))
              (V3 1 0 0, V3 0 1 0) (repeat (V3 0 0 0) 21) "left" eq_refl)
    as [calls [E [Hl _]]].
  exists calls. split; assumption.
Defined.

Lemma for_each_single {C : Type} (f : nat -> Vis.call C)
    (body : nat -> option (list (Vis.call C))) (range : list nat) :
  (forall l, In l range -> body l = Some [f l]) ->
  Vis.for_each body range = Some (map f range).
Proof.
  induction range as [|l range IH]; intros Hb; cbn [Vis.for_each map];
    [reflexivity|].
  rewrite (Hb l (or_introl eq_refl)), IH; [reflexivity|].
  intros l' Hl'. apply Hb. right. exact Hl'.
Qed.

Lemma nth_error_seq_lt (i n : nat) : (i < n)%nat -> nth_error (seq 0 n) i = Some i.
Proof.
  intros Hi. rewrite (nth_error_nth' _ 0%nat) by (rewrite length_seq; exact Hi).
  rewrite seq_nth by exact Hi. reflexivity.
Qed.

Lemma rainbow_nth (cmap : R -> R * R * R * R) (n i : nat) :
  (i < n + 2)%nat ->
  nth_error (Vis.rainbow cmap n) i = Some (bgr255 (cmap (INR i / INR (n + 1)))).
Proof.
  intros Hi. unfold Vis.rainbow, Vis.linspace01.
  rewrite !nth_error_map, (nth_error_seq_lt Hi). cbn [option_map].
  replace (n + 2 - 1)%nat with (n + 1)%nat by lia.
  assert (Hn : INR (n + 1) <> 0) by (apply not_0_INR; lia).
  replace (0 + INR i * ((1 - 0) / INR (n + 1))) with (INR i / INR (n + 1))
    by (field; exact Hn).
  reflexivity.
Qed.

(** X23: [vis_keypoints] never raises.  It draws one circle for each keypoint, in
    order; keypoint [i] of [n] gets the colour of the colour map at
    [i / (n + 1)], red and blue swapped and scaled by 255, so the last two of
    the [n + 2] samples, among them the end 1 of the map, are never used. *)
Theorem vis_keypoints_calls_spec (astype_int32 : R -> Z)
    (cmap : R -> R * R * R * R) (kps : list (R * R)) :
  exists calls,
    Vis.vis_keypoints_calls astype_int32 cmap kps = Some calls /\
    List.length calls = List.length kps /\
    forall (i : nat) (row : R * R),
      nth_error kps i = Some row ->
      nth_error calls i
      = Some (Vis.Circle (astype_int32 (fst row), astype_int32 (snd row)) 3
                (bgr255 (cmap (INR i / INR (List.length kps + 1)))) (-1)).
Proof.
  set (n := List.length kps).
  set (f := fun i : nat =>
              let row := nth i kps (0, 0) in
              Vis.Circle (astype_int32 (fst row), astype_int32 (snd row)) 3
                (bgr255 (cmap (INR i / INR (n + 1)))) (-1)).
  exists (map f (seq 0 n)). split; [|split].
  - unfold Vis.vis_keypoints_calls. cbv zeta. fold n.
    apply for_each_single. intros i Hi. apply in_seq in Hi.
    unfold Vis.keypoints_body, Vis.point, Vis.item.
    destruct (Z.leb_spec 0 (Z.of_nat i)) as [_|Hneg]; [|lia].
    rewrite Nat2Z.id, (nth_error_nth' kps (0, 0)) by (fold n; lia).
    cbn [option_map]. rewrite rainbow_nth by lia. reflexivity.
  - rewrite length_map, length_seq. reflexivity.
  - intros i row Hrow.
    assert (Hi : (i < n)%nat) by (apply nth_error_Some; congruence).
    rewrite nth_error_map, (nth_error_seq_lt Hi). cbn [option_map].
    unfold f. rewrite (nth_error_nth _ _ (0, 0) Hrow). reflexivity.
Qed.

(** * The axis of the block *)

(** In exact real arithmetic the block computed from a vector leaves that vector where it is: the
    rotation is about the axis given, for every magnitude, and exactly,
    whatever the 1e-8 guard does to the length of the axis. *)
Theorem axis_angle_to_matrix_fixes_axis {I : Type} (aa : I -> vec3 R) (i : I) :
  mvec (axis_angle_to_matrix aa i) (aa i) = aa i.
Proof.
  destruct (axis_angle_to_matrix_cases aa i) as [[_ ->]|[_ ->]].
  - destruct (aa i) as [x y z]. unfold mvec. block_ops. f_equal; ring.
  - rewrite R_is_rodrigues. unfold AxisAngleToMatrix.axis.
    set (t := AxisAngleToMatrix.angle aa i).
    destruct (aa i) as [x y z]. unfold mvec. block_ops.
    f_equal; unfold Rdiv; ring.
Qed.

(** * The conversions under float32 overflow *)

Lemma ovf_fin (r : R) : Rabs r <= f32_max -> ovf r = XFin r.
Proof.
  intros H. pose proof (Rle_abs r) as H1. pose proof (Rle_abs (- r)) as H2.
  rewrite Rabs_Ropp in H2. unfold ovf.
  destruct (Rlt_dec f32_max r); [lra|].
  destruct (Rlt_dec r (- f32_max)); [lra|reflexivity].
Qed.

Lemma ovf_big (r : R) : f32_max < r -> ovf r = XInf false.
Proof. intros H. unfold ovf. destruct (Rlt_dec f32_max r); [reflexivity|contradiction]. Qed.

Lemma xdiv_fin (a b : R) : b <> 0 -> xdiv (XFin a) (XFin b) = ovf (a / b).
Proof. intros H. unfold xdiv. destruct (Req_dec_T b 0); [contradiction|reflexivity]. Qed.

Lemma xsqrt_fin (a : R) : 0 <= a -> xsqrt (XFin a) = XFin (sqrt a).
Proof. intros H. unfold xsqrt. destruct (Rlt_dec a 0); [lra|reflexivity]. Qed.

(** Bounds of real expressions, composed along their syntax. *)

Lemma bnd_add (a b A B : R) : Rabs a <= A -> Rabs b <= B -> Rabs (a + b) <= A + B.
Proof. intros Ha Hb. pose proof (Rabs_triang a b). lra. Qed.

Lemma bnd_sub (a b A B : R) : Rabs a <= A -> Rabs b <= B -> Rabs (a - b) <= A + B.
Proof.
  intros Ha Hb. unfold Rminus. pose proof (Rabs_triang a (- b)).
  rewrite Rabs_Ropp in *. lra.
Qed.

Lemma bnd_mul (a b A B : R) : Rabs a <= A -> Rabs b <= B -> Rabs (a * b) <= A * B.
Proof.
  intros Ha Hb. rewrite Rabs_mult.
  apply Rmult_le_compat; try apply Rabs_pos; assumption.
Qed.

Lemma bnd_opp (a A : R) : Rabs a <= A -> Rabs (- a) <= A.
Proof. rewrite Rabs_Ropp. trivial. Qed.

Lemma bnd_abs (a A : R) : Rabs a <= A -> Rabs (Rabs a) <= A.
Proof. rewrite Rabs_Rabsolu. trivial. Qed.

Lemma bnd_sin (a : R) : Rabs (sin a) <= 1.
Proof. apply Rabs_le. apply SIN_bound. Qed.

Lemma bnd_cos (a : R) : Rabs (cos a) <= 1.
Proof. apply Rabs_le. apply COS_bound. Qed.

Lemma bnd_pos (c : R) : 0 <= c -> Rabs c <= c.
Proof. intros H. rewrite Rabs_pos_eq by exact H. lra. Qed.

Lemma bnd_neg (c : R) : c <= 0 -> Rabs c <= - c.
Proof. intros H. rewrite Rabs_left1 by exact H. lra. Qed.

Ltac bnd :=
  first
    [ eassumption
    | apply bnd_sin
    | apply bnd_cos
    | eapply bnd_add; bnd
    | eapply bnd_sub; bnd
    | eapply bnd_mul; bnd
    | eapply bnd_opp; bnd
    | eapply bnd_abs; bnd
    | apply bnd_pos; lra
    | apply bnd_neg; lra ].

Ltac in_f32 := eapply Rle_trans; [bnd | unfold f32_max; lra].

Ltac xops :=
  cbv [lit add sub mul div neg absv sqrtv sinv cosv acosv clamp ltb
       Scalar_R Scalar_xfloat].

Ltac xfin :=
  repeat first
    [ rewrite ovf_fin by in_f32
    | rewrite xdiv_fin by lra
    | progress cbn [xadd xsub xmul xneg xabs xtrig] ].

Lemma norm3_vx (v : vec3 R) :
  sq_norm v <= 1e38 -> norm3 (vx v) = XFin (norm3 v).
Proof.
  destruct v as [x y z]. unfold sq_norm, norm3, vx, vmap; cbn [v0 v1 v2].
  intros Hs. xops.
  assert (Hx : Rabs (x * x) <= 1e38) by (apply Rabs_le; nra).
  assert (Hy : Rabs (y * y) <= 1e38) by (apply Rabs_le; nra).
  assert (Hz : Rabs (z * z) <= 1e38) by (apply Rabs_le; nra).
  assert (Hxy : Rabs (x * x + y * y) <= 1e38) by (apply Rabs_le; nra).
  assert (Hxyz : Rabs (x * x + y * y + z * z) <= 1e38) by (apply Rabs_le; nra).
  xfin. apply xsqrt_fin. nra.
Qed.

Lemma norm_le_sq (v : vec3 R) (c : R) : norm3 v <= c -> sq_norm v <= c * c.
Proof.
  intros H. pose proof (norm3_nonneg v). rewrite <- norm3_sq. nra.
Qed.

Lemma quotient_le_1 (x n : R) : Rabs x <= n -> Rabs (x / (n + 1e-8)) <= 1.
Proof.
  intros Hx. pose proof (Rabs_pos x) as Hp.
  assert (Hd : 0 < n + 1e-8) by lra.
  unfold Rdiv. rewrite Rabs_mult, (Rabs_pos_eq (/ _)) by (left; apply Rinv_0_lt_compat; exact Hd).
  apply Rmult_le_reg_r with (n + 1e-8); [exact Hd|].
  rewrite Rmult_assoc, Rinv_l by lra. lra.
Qed.

(** Below the overflow of the squared norm the overflow-aware run of
    [axis_angle_to_matrix] is the exact one: no intermediate result leaves
    the range of float32. *)
Lemma axis_angle_to_matrix_vx {I : Type} (aa : I -> vec3 R) (i : I) :
  norm3 (aa i) <= 1e19 ->
  axis_angle_to_matrix (fun k => vx (aa k)) i = mx (axis_angle_to_matrix aa i).
Proof.
  intros Hle.
  pose proof (norm_le_sq _ Hle) as Hsq.
  pose proof (norm3_nonneg (aa i)) as Hn0.
  pose proof (entry_le_norm (aa i)) as [Hx [Hy Hz]].
  unfold axis_angle_to_matrix, AxisAngleToMatrix.result,
    AxisAngleToMatrix.small_angle_mask, AxisAngleToMatrix.R,
    AxisAngleToMatrix.Id, AxisAngleToMatrix.K, AxisAngleToMatrix.sin_angle,
    AxisAngleToMatrix.cos_angle, AxisAngleToMatrix.axis, AxisAngleToMatrix.angle.
  rewrite norm3_vx by lra.
  set (n := norm3 (aa i)) in *.
  assert (Hn : Rabs n <= 1e19) by (rewrite Rabs_pos_eq; assumption).
  change (ltb (XFin n) (lit 1e-3)) with (xltb (XFin n) (ovf 1e-3)).
  rewrite ovf_fin by in_f32.
  change (xltb (XFin n) (XFin 1e-3)) with (Rltb n 1e-3).
  change (ltb n (lit 1e-3)) with (Rltb n 1e-3).
  destruct (Rltb n 1e-3).
  - cbv [eye3 mx mmap m00 m01 m02 m10 m11 m12 m20 m21 m22]. xops. xfin. reflexivity.
  - destruct (aa i) as [x y z]. cbn [v0 v1 v2] in Hx, Hy, Hz.
    apply quotient_le_1 in Hx, Hy, Hz.
    cbv [vdiv vx vmap madd mscale mzip mmap bmm eye3 mx
         m00 m01 m02 m10 m11 m12 m20 m21 m22 v0 v1 v2].
    xops. xfin. reflexivity.
Qed.

Lemma ovf_square (y : R) : ovf (y * y) = XFin (y * y) \/ ovf (y * y) = XInf false.
Proof.
  unfold ovf. destruct (Rlt_dec f32_max (y * y)); [right; reflexivity|].
  destruct (Rlt_dec (y * y) (- f32_max)) as [Hneg|_]; [|left; reflexivity].
  unfold f32_max in Hneg. nra.
Qed.

(** When the square of the first coordinate overflows, so does the norm. *)
Lemma norm3_overflow (x y z : R) :
  f32_max < x * x -> norm3 (V3 (XFin x) (XFin y) (XFin z)) = XInf false.
Proof.
  intros Hx. unfold norm3; cbn [v0 v1 v2]. xops. cbn [xmul].
  rewrite (ovf_big Hx).
  destruct (ovf_square y) as [-> | ->]; destruct (ovf_square z) as [-> | ->];
    reflexivity.
Qed.

(** An infinite norm gives a NaN sine and cosine, and with them an all-NaN
    block: the override does not apply, an infinity is not below 1e-3. *)
Lemma axis_angle_to_matrix_inf_norm {I : Type} (aa : I -> vec3 xfloat) (i : I)
    (x y z : R) :
  aa i = V3 (XFin x) (XFin y) (XFin z) ->
  norm3 (aa i) = XInf false ->
  axis_angle_to_matrix aa i = mmap (fun _ : xfloat => XNaN) eye3.
Proof.
  intros Hv Hn.
  unfold axis_angle_to_matrix, AxisAngleToMatrix.result,
    AxisAngleToMatrix.small_angle_mask, AxisAngleToMatrix.R,
    AxisAngleToMatrix.Id, AxisAngleToMatrix.K, AxisAngleToMatrix.sin_angle,
    AxisAngleToMatrix.cos_angle, AxisAngleToMatrix.axis, AxisAngleToMatrix.angle.
  rewrite Hn, Hv.
  cbv [vdiv vmap madd mscale mzip mmap bmm eye3
       m00 m01 m02 m10 m11 m12 m20 m21 m22 v0 v1 v2].
  xops. xfin. cbn [xadd xdiv xtrig xmul xsub xneg xltb]. xfin.
  cbn [xadd xdiv xtrig xmul xsub xneg xltb]. reflexivity.
Qed.

Lemma all_nan_not_numeric (r : mat3 R) : mmap (fun _ : xfloat => XNaN) eye3 <> mx r.
Proof.
  intros E. apply (f_equal (@m00 xfloat)) in E.
  cbv [mmap mx eye3 m00] in E. discriminate E.
Qed.

(** C2, counterexample: the vector [[1e20, 0, 0]] is finite, but its squared
    norm overflows float32; the block returned is all NaN and so is not a
    rotation within 1e-5. *)
Lemma axis_angle_to_matrix_overflow :
  axis_angle_to_matrix (fun _ : unit => V3 (XFin 1e20) (XFin 0) (XFin 0)) tt
  = mmap (fun _ : xfloat => XNaN) eye3 /\
  ~ numeric_rotation
      (axis_angle_to_matrix (fun _ : unit => V3 (XFin 1e20) (XFin 0) (XFin 0)) tt).
Proof.
  assert (E : axis_angle_to_matrix
                (fun _ : unit => V3 (XFin 1e20) (XFin 0) (XFin 0)) tt
              = mmap (fun _ : xfloat => XNaN) eye3).
  { apply (@axis_angle_to_matrix_inf_norm unit _ tt 1e20 0 0 eq_refl).
    apply norm3_overflow. unfold f32_max. lra. }
  split; [exact E|].
  rewrite E. intros [r [Hr _]]. exact (all_nan_not_numeric Hr).
Qed.

(** C2, amended: for every axis-angle vector of magnitude at most 1e19, the
    near-zero branch included, the block returned is numeric and a rotation
    within 1e-5: no intermediate result overflows, and the Gram matrix and
    the determinant are within 1e-5 of the identity and of 1. *)
Theorem axis_angle_to_matrix_rotation_below_overflow {I : Type}
    (aa : I -> vec3 R) (i : I) :
  norm3 (aa i) <= 1e19 ->
  numeric_rotation (axis_angle_to_matrix (fun k => vx (aa k)) i).
Proof.
  intros Hle. exists (axis_angle_to_matrix aa i). split.
  - apply axis_angle_to_matrix_vx. exact Hle.
  - unfold rotation_1e5. apply axis_angle_to_matrix_rotation.
Qed.

Lemma norm3_unit_x : @norm3 R _ (V3 1 0 0) = 1.
Proof.
  rewrite norm3_sqrt. block_ops.
  replace (1 * 1 + 0 * 0 + 0 * 0) with 1 by ring. apply sqrt_1.
Qed.

(** The unit vector along x. *)
Lemma axis_angle_to_matrix_rotation_below_overflow_witness :
  numeric_rotation (axis_angle_to_matrix (fun k : unit => vx (V3 1 0 0)) tt).
Proof.
  apply (axis_angle_to_matrix_rotation_below_overflow (fun _ : unit => V3 1 0 0) tt).
  rewrite norm3_unit_x. lra.
Defined.

(** * [PoseLoss] under float32 overflow *)

(** C7, counterexample: two identical poses whose entries are all 1e20, with
    mask 1: both blocks are all NaN and so is the loss, not zero. *)
Lemma PoseLoss_equal_poses_overflow :
  PoseLoss.forward (fun _ _ => XFin 1e20) (fun _ _ => XFin 1e20)
                   (fun _ _ => XFin 1) 0 0
  = mmap (fun _ : xfloat => XNaN) eye3 /\
  PoseLoss.forward (fun _ _ => XFin 1e20) (fun _ _ => XFin 1e20)
                   (fun _ _ => XFin 1) 0 0
  <> zeros33.
Proof.
  assert (E : PoseLoss.forward (fun _ _ => XFin 1e20) (fun _ _ => XFin 1e20)
                (fun _ _ => XFin 1) 0 0
              = mmap (fun _ : xfloat => XNaN) eye3).
  { unfold PoseLoss.forward, PoseLoss.rot_out, PoseLoss.rot_gt.
    rewrite (@axis_angle_to_matrix_inf_norm _
               (PoseLoss.view3 (fun _ _ : nat => XFin 1e20)) (0, 0)%nat
               1e20 1e20 1e20 eq_refl)
      by (apply norm3_overflow; unfold f32_max; lra).
    reflexivity. }
  split; [exact E|].
  rewrite E. intros H. apply (f_equal (@m00 xfloat)) in H.
  cbv [mmap zeros33 eye3 m00 lit Scalar_xfloat] in H. unfold ovf in H.
  destruct (Rlt_dec f32_max 0); [discriminate H|].
  destruct (Rlt_dec 0 (- f32_max)); discriminate H.
Qed.

Lemma view3_vx (pose : nat -> nat -> R) (bj : nat * nat) :
  PoseLoss.view3 (fun b k => XFin (pose b k)) bj = vx (PoseLoss.view3 pose bj).
Proof. destruct bj. reflexivity. Qed.

Lemma rot_vx (pose : nat -> nat -> R) (bj : nat * nat) :
  norm3 (PoseLoss.view3 pose bj) <= 1e19 ->
  axis_angle_to_matrix (PoseLoss.view3 (fun b k => XFin (pose b k))) bj
  = mx (axis_angle_to_matrix (PoseLoss.view3 pose) bj).
Proof.
  intros Hle.
  rewrite <- (axis_angle_to_matrix_vx (PoseLoss.view3 pose) bj Hle).
  apply axis_angle_to_matrix_local. apply view3_vx.
Qed.

Lemma equal_entry_zero (a m : R) :
  xmul (xabs (xsub (XFin a) (XFin a))) (XFin m) = ovf 0.
Proof.
  cbn [xsub]. rewrite Rminus_diag, ovf_fin by in_f32.
  cbn [xabs xmul]. rewrite Rabs_R0, Rmult_0_l. apply ovf_fin. in_f32.
Qed.

(** C7, amended: for identical poses whose joint has a magnitude of at most
    1e19, and for every real mask, the loss block of the joint is zero. *)
Theorem PoseLoss_equal_poses_below_overflow (pose pose_valid : nat -> nat -> R)
    (b j : nat) :
  norm3 (PoseLoss.view3 pose (b, j)) <= 1e19 ->
  PoseLoss.forward (fun b k => XFin (pose b k)) (fun b k => XFin (pose b k))
                   (fun b j => XFin (pose_valid b j)) b j
  = zeros33.
Proof.
  intros Hle.
  unfold PoseLoss.forward, PoseLoss.rot_out, PoseLoss.rot_gt.
  rewrite (rot_vx pose (b, j) Hle).
  destruct (axis_angle_to_matrix (PoseLoss.view3 pose) (b, j))
    as [a00 a01 a02 a10 a11 a12 a20 a21 a22].
  cbv [mabs msub mzip mmap mx zeros33 eye3
       m00 m01 m02 m10 m11 m12 m20 m21 m22].
  xops. rewrite !equal_entry_zero. reflexivity.
Qed.

(** Poses of 1 per coordinate, mask 1. *)
Lemma PoseLoss_equal_poses_below_overflow_witness :
  PoseLoss.forward (fun _ _ => XFin 1) (fun _ _ => XFin 1) (fun _ _ => XFin 1) 0 0
  = zeros33.
Proof.
  apply (PoseLoss_equal_poses_below_overflow (fun _ _ => 1) (fun _ _ => 1) 0 0).
  apply norm3_le; [lra|]. unfold PoseLoss.view3. block_ops. lra.
Defined.

Lemma mall_abs (r : mat3 R) :
  mall (fun e => -1 <= e <= 1) r -> mall (fun e => Rabs e <= 1) r.
Proof.
  unfold mall. intros H. repeat split; apply Rabs_le; tauto.
Qed.

(** Below the overflow of the squared norms, and with a mask entry of
    magnitude at most 1e38, the overflow-aware run of [PoseLoss] is the exact
    one. *)
Lemma PoseLoss_forward_vx (pose_out pose_gt pose_valid : nat -> nat -> R)
    (b j : nat) :
  norm3 (PoseLoss.view3 pose_out (b, j)) <= 1e19 ->
  norm3 (PoseLoss.view3 pose_gt (b, j)) <= 1e19 ->
  Rabs (pose_valid b j) <= 1e38 ->
  PoseLoss.forward (fun b k => XFin (pose_out b k)) (fun b k => XFin (pose_gt b k))
                   (fun b j => XFin (pose_valid b j)) b j
  = mx (PoseLoss.forward pose_out pose_gt pose_valid b j).
Proof.
  intros Ho Hg Hm.
  unfold PoseLoss.forward, PoseLoss.rot_out, PoseLoss.rot_gt.
  rewrite (rot_vx pose_out (b, j) Ho), (rot_vx pose_gt (b, j) Hg).
  pose proof (mall_abs (axis_angle_to_matrix_entries (PoseLoss.view3 pose_out) (b, j)))
    as Bo.
  pose proof (mall_abs (axis_angle_to_matrix_entries (PoseLoss.view3 pose_gt) (b, j)))
    as Bg.
  destruct (axis_angle_to_matrix (PoseLoss.view3 pose_out) (b, j)).
  destruct (axis_angle_to_matrix (PoseLoss.view3 pose_gt) (b, j)).
  unfold mall in Bo, Bg. cbn [m00 m01 m02 m10 m11 m12 m20 m21 m22] in Bo, Bg.
  destruct Bo as (?&?&?&?&?&?&?&?&?). destruct Bg as (?&?&?&?&?&?&?&?&?).
  cbv [mabs msub mzip mmap mx m00 m01 m02 m10 m11 m12 m20 m21 m22].
  xops. xfin. reflexivity.
Qed.

(** X3: for every axis-angle vector of magnitude at most 1e19 the block
    returned is numeric and each of its entries lies in [[-1, 1]]. *)
Theorem axis_angle_to_matrix_entries_below_overflow {I : Type}
    (aa : I -> vec3 R) (i : I) :
  norm3 (aa i) <= 1e19 ->
  exists r : mat3 R,
    axis_angle_to_matrix (fun k => vx (aa k)) i = mx r /\
    mall (fun e => -1 <= e <= 1) r.
Proof.
  intros Hle. exists (axis_angle_to_matrix aa i). split.
  - apply axis_angle_to_matrix_vx. exact Hle.
  - apply axis_angle_to_matrix_entries.
Qed.

Lemma axis_angle_to_matrix_entries_below_overflow_witness :
  exists r : mat3 R,
    axis_angle_to_matrix (fun k : unit => vx (V3 1 0 0)) tt = mx r /\
    mall (fun e => -1 <= e <= 1) r.
Proof.
  apply (axis_angle_to_matrix_entries_below_overflow (fun _ : unit => V3 1 0 0) tt).
  rewrite norm3_unit_x. lra.
Defined.

(** X4: with a mask entry of 0 or 1 and two poses of a joint of magnitude at
    most 1e19, the loss block of the joint is numeric and each of its
    entries lies in [[0, 2]]. *)
Theorem PoseLoss_bounded_below_overflow
    (pose_out pose_gt pose_valid : nat -> nat -> R) (b j : nat) :
  norm3 (PoseLoss.view3 pose_out (b, j)) <= 1e19 ->
  norm3 (PoseLoss.view3 pose_gt (b, j)) <= 1e19 ->
  pose_valid b j = 0 \/ pose_valid b j = 1 ->
  exists r : mat3 R,
    PoseLoss.forward (fun b k => XFin (pose_out b k)) (fun b k => XFin (pose_gt b k))
                     (fun b j => XFin (pose_valid b j)) b j
    = mx r /\
    mall (fun e => 0 <= e <= 2) r.
Proof.
  intros Ho Hg Hm.
  exists (PoseLoss.forward pose_out pose_gt pose_valid b j). split.
  - apply PoseLoss_forward_vx; try assumption.
    apply Rabs_le. destruct Hm as [-> | ->]; lra.
  - apply PoseLoss_bounded. exact Hm.
Qed.

Lemma norm3_ones : @norm3 R _ (V3 1 1 1) <= 1e19.
Proof. apply norm3_le; [lra|]. block_ops. lra. Qed.

Lemma PoseLoss_bounded_below_overflow_witness :
  exists r : mat3 R,
    PoseLoss.forward (fun _ _ => XFin 1) (fun _ _ => XFin 0) (fun _ _ => XFin 1) 0 0
    = mx r /\
    mall (fun e => 0 <= e <= 2) r.
Proof.
  apply (PoseLoss_bounded_below_overflow
           (fun _ _ => 1) (fun _ _ => 0) (fun _ _ => 1) 0 0).
  - exact norm3_ones.
  - apply norm3_le; [lra|]. unfold PoseLoss.view3. block_ops. lra.
  - right; reflexivity.
Defined.

(** X24: for every axis-angle vector of magnitude at most 1e19 the block
    returned is numeric and, as a real matrix, maps the vector to itself:
    the rotation is about the axis given, whatever the 1e-8 guard does to
    the length of the axis. *)
Theorem axis_angle_to_matrix_fixes_axis_below_overflow {I : Type}
    (aa : I -> vec3 R) (i : I) :
  norm3 (aa i) <= 1e19 ->
  exists r : mat3 R,
    axis_angle_to_matrix (fun k => vx (aa k)) i = mx r /\
    mvec r (aa i) = aa i.
Proof.
  intros Hle. exists (axis_angle_to_matrix aa i). split.
  - apply axis_angle_to_matrix_vx. exact Hle.
  - apply axis_angle_to_matrix_fixes_axis.
Qed.

Lemma axis_angle_to_matrix_fixes_axis_below_overflow_witness :
  exists r : mat3 R,
    axis_angle_to_matrix (fun k : unit => vx (V3 1 0 0)) tt = mx r /\
    mvec r (V3 1 0 0) = V3 1 0 0.
Proof.
  apply (axis_angle_to_matrix_fixes_axis_below_overflow (fun _ : unit => V3 1 0 0) tt).
  rewrite norm3_unit_x. lra.
Defined.

(** * The round trip between PI and 2 PI *)

(** The angle read back from a trace [1 - (1 - cos p) u u] with [u] just
    below 1, and the factor lost by the second normalisation. *)
Lemma angle_readback (p u : R) :
  0.01 < p < PI - 0.01 ->
  0.99 <= u < 1 ->
  (1 - cos p) * (1 - u * u) <= 4e-8 ->
  -1 <= 1 - (1 - cos p) * (u * u) <= 1 /\
  0.0099 <= 2 * sin p * u /\
  1e-3 <= acos (1 - (1 - cos p) * (u * u)) /\
  0 <= p - acos (1 - (1 - cos p) * (u * u))
           * (2 * sin p * u / (2 * sin p * u + 1e-8)) <= 1e-4.
Proof.
  intros [Hp0 Hp1] [Hu0 Hu1] Hw.
  pose proof PI_gt_3 as Hpi3. pose proof PI_4 as Hpi4.
  pose proof (one_minus_cos_range p) as [Hb0 Hb2].
  assert (Hs : 0.005 <= sin p) by (apply sin_away_from_ends; lra).
  pose proof (COS_bound p) as [Hc0 Hc1].
  set (x := 1 - (1 - cos p) * (u * u)). set (n := 2 * sin p * u).
  set (b := 1 - cos p) in *.
  assert (Huu : 0 <= u * u <= 1) by nra.
  assert (Hx : -1 <= x <= 1) by (unfold x; nra).
  assert (Hn : 0.0099 <= n) by (unfold n; nra).
  pose proof (acos_bound x) as [Ha0 Ha1].
  pose proof (cos_acos x Hx) as Hca.
  set (t' := acos x) in *.
  assert (Hle : t' <= p).
  { apply cos_le_angle_ge; [lra|lra|]. rewrite Hca. unfold x, b. nra. }
  assert (Hge : p - 5e-5 <= t').
  { apply cos_le_angle_ge; [lra|lra|]. rewrite Hca, cos_minus.
    assert (He : 0 <= 5e-5 <= 1) by lra.
    pose proof (sin_half He) as Hse.
    pose proof (one_minus_cos_le 5e-5) as Hce.
    pose proof (one_minus_cos_range 5e-5) as [Hce0 _].
    set (se := sin 5e-5) in *. set (ce := cos 5e-5) in *.
    assert (Hcc : cos p * (1 - ce) <= 1.25e-9) by nra.
    assert (Hss : 1.25e-7 <= sin p * se) by nra.
    unfold x. unfold b in Hw |- *. nra. }
  split; [exact Hx|]. split; [exact Hn|]. split; [lra|].
  assert (Hnd : 0 < n + 1e-8) by lra.
  assert (Hq : (1 - n / (n + 1e-8)) * (n + 1e-8) = 1e-8) by (field; lra).
  set (w := n / (n + 1e-8)) in *.
  assert (Hw1 : 0 <= 1 - w <= 1.02e-6) by nra.
  nra.
Qed.

Lemma trig_2PI_minus (t : R) :
  cos (2 * PI - t) = cos t /\ sin (2 * PI - t) = - sin t.
Proof.
  rewrite cos_minus, sin_minus, cos_2PI, sin_2PI. split; ring.
Qed.

(** X11: an axis-angle vector of magnitude between PI + 0.01 and
    2 PI - 0.01 comes back from the round trip reversed, with the magnitude
    2 PI minus its own, within 1e-4: the rotation is read back about the
    opposite axis. *)
Theorem round_trip_reversed {I : Type} (aa : I -> vec3 R) (i : I) :
  PI + 0.01 < norm3 (aa i) < 2 * PI - 0.01 ->
  exists k : R,
    0 <= (2 * PI - norm3 (aa i)) - k <= 1e-4 /\
    matrix_to_axis_angle (axis_angle_to_matrix aa) i
    = vscale (- (k / norm3 (aa i))) (aa i).
Proof.
  intros Hrange. pose proof PI_gt_3 as Hpi3. pose proof PI_4 as Hpi4.
  change (norm3 (aa i)) with (AxisAngleToMatrix.angle aa i) in *.
  pose proof (axis_sq_norm aa i) as Hq.
  set (t := AxisAngleToMatrix.angle aa i) in *.
  destruct (trig_2PI_minus t) as [Hcos Hsin].
  assert (Ht : 0 <= t) by lra.
  destruct (guarded_ratio Ht) as [[Hu0 Hu1] [Hud Hvd]].
  set (u := t / (t + 1e-8)) in *.
  assert (Hu99 : 0.99 <= u) by nra.
  pose proof (one_minus_cos_range t) as [Hb0 Hb2].
  assert (Hsmall : (1 - cos (2 * PI - t)) * (1 - u * u) <= 4e-8).
  { rewrite Hcos. assert (0 <= 1 - u * u) by nra.
    assert ((1 - u * u) * (t + 1e-8) <= 2e-8) by nra.
    assert (1 - u * u <= 1e-8) by nra. nra. }
  destruct (@angle_readback (2 * PI - t) u ltac:(lra) ltac:(lra) Hsmall)
    as [Hx [Hn [Hbig Herr]]].
  rewrite Hcos in Hx, Hbig, Herr. rewrite Hsin in Hn, Herr.
  set (x := 1 - (1 - cos t) * (u * u)) in *.
  set (n := 2 * - sin t * u) in *.
  assert (HR : axis_angle_to_matrix aa i
               = rodrigues (AxisAngleToMatrix.axis aa i) (sin t) (1 - cos t)).
  { destruct (axis_angle_to_matrix_cases aa i) as [[Hlt _]|[_ ->]].
    - change (AxisAngleToMatrix.angle aa i) with t in Hlt. lra.
    - apply R_is_rodrigues. }
  set (a := AxisAngleToMatrix.axis aa i) in *.
  assert (Harg : MatrixToAxisAngle.acos_arg (axis_angle_to_matrix aa) i = x).
  { unfold MatrixToAxisAngle.acos_arg, MatrixToAxisAngle.trace. scalar_ops.
    rewrite HR, rodrigues_trace, Hq.
    replace ((3 - 2 * (1 - cos t) * (u * u) - 1) / 2) with x by (unfold x; field).
    apply clamp_inside. exact Hx. }
  assert (Hang : MatrixToAxisAngle.angle (axis_angle_to_matrix aa) i = acos x).
  { unfold MatrixToAxisAngle.angle. rewrite Harg. reflexivity. }
  assert (Hax : MatrixToAxisAngle.axis (axis_angle_to_matrix aa) i
                = vscale (2 * sin t) a).
  { unfold MatrixToAxisAngle.axis. scalar_ops. rewrite HR.
    destruct (rodrigues_skew a (sin t) (1 - cos t)) as [-> [-> ->]].
    reflexivity. }
  assert (Hnorm : MatrixToAxisAngle.axis_norm (axis_angle_to_matrix aa) i = n).
  { unfold MatrixToAxisAngle.axis_norm. rewrite Hax, norm3_sqrt, sq_norm_vscale, Hq.
    replace (2 * sin t * (2 * sin t) * (u * u)) with (n * n) by (unfold n; ring).
    apply sqrt_square. lra. }
  exists (acos x * (n / (n + 1e-8))). split; [exact Herr|].
  destruct (matrix_to_axis_angle_cases (axis_angle_to_matrix aa) i)
    as [[Hlt _]|[_ ->]].
  { rewrite Hang in Hlt. lra. }
  unfold MatrixToAxisAngle.axis_angle, MatrixToAxisAngle.axis_unit.
  rewrite Hang, Hnorm, Hax.
  unfold a, AxisAngleToMatrix.axis.
  change (AxisAngleToMatrix.angle aa i) with t.
  assert (Hs2 : 2 * sin t = - (n * (t + 1e-8) / t)) by (unfold n, u; field; lra).
  rewrite Hs2.
  destruct (aa i) as [p q r]. block_ops.
  f_equal; field; lra.
Qed.

(** The vector [[5, 0, 0]]: PI + 0.01 < 5 < 2 PI - 0.01. *)
Lemma round_trip_reversed_witness :
  exists k : R,
    0 <= (2 * PI - norm3 (V3 5 0 0)) - k <= 1e-4 /\
    matrix_to_axis_angle (axis_angle_to_matrix (fun _ : unit => V3 5 0 0)) tt
    = vscale (- (k / norm3 (V3 5 0 0))) (V3 5 0 0).
Proof.
  apply (round_trip_reversed (fun _ : unit => V3 5 0 0) tt).
  assert (E : @norm3 R _ (V3 5 0 0) = 5).
  { rewrite norm3_sqrt. block_ops.
    replace (5 * 5 + 0 * 0 + 0 * 0) with (5 * 5) by ring. apply sqrt_square. lra. }
  rewrite E. pose proof PI_gt_3. pose proof PI_4. lra.
Defined.
